(** * monitor_qat.py: discovery and aggregation engine of the QAT monitor

    A shallow embedding of [jmh/qat-java-bench/monitor_qat.py] and the
    properties of its two functions, [EnableTelemetry] and [pbar].

    Conventions of the embedding.
    - The output of an external command is taken after [out.split()]: a
      list of whitespace-free tokens.
    - A Python exception is a value of [exn]; code that can raise returns
      a [result].
    - Python [str] values are [string]s; all literals of the script are
      ASCII, and comparison of strings is comparison of their bytes.
    - The external collaborators raise nothing of their own: [Popen]
      returns the output of its command, the curses window accepts every
      call.  The control write through [check_output] succeeds or fails,
      and its shell may write on the standard error of the script.
    - The loop of [pbar] runs until it is interrupted; it is modelled
      for a given number of iterations. *)

From Stdlib Require Import ZArith Ascii String List Permutation Lia Bool
  DecimalString Sorted.
From stdpp Require Import base option strings list gmap.

Import ListNotations.
Local Open Scope string_scope.
Local Open Scope list_scope.

(** ** Exceptions and results *)

Inductive exn : Type :=
| IndexError
| TypeError
| ValueError
| UnboundLocalError
| OverflowError
| CalledProcessError
| SystemExit (code : option Z).

Inductive result (A : Type) : Type :=
| Ok (a : A)
| Raise (e : exn).

Arguments Ok {A} a.
Arguments Raise {A} e.

Definition rbind {A B : Type} (r : result A) (k : A -> result B) : result B :=
  match r with
  | Ok a => k a
  | Raise e => Raise e
  end.

Notation "'let*' x ':=' r 'in' k" := (rbind r (fun x => k))
  (at level 10, x name, r at level 100, k at level 200).

(** ** Strings *)

(** [sub in s] of Python for two strings. *)
Fixpoint str_in (sub s : string) : bool :=
  String.prefix sub s ||
  match s with
  | EmptyString => false
  | String _ s' => str_in sub s'
  end.

(** [s[5:7]]: the slice never raises, it is cut short by the end of [s]. *)
Definition slice_5_7 (s : string) : string := String.substring 5 2 s.

(** ** EnableTelemetry: the device list built from [adf_ctl status] *)

(** The loop variables [name], [bus] and [telemetry_supported]; the
    variable [state] of the script is written and never read. *)
Record candidate : Type := Candidate {
  name : option string;
  bus : option string;
  telemetry_supported : bool
}.

(** An element of the global [devices]: the tuple [(name, bus)]. *)
Definition device : Type := option string * option string.

Definition no_candidate : candidate := Candidate None None false.

(** One iteration of [while i < len(output_adf)], at token [t];
    [next] is [output_adf[i+1]], absent when [i+1] is out of range. *)
Definition adf_token (t : string) (next : option string)
    (c : candidate) (devices : list device)
  : result (candidate * list device) :=
  if str_in "qat_dev" t then
    Ok (Candidate (Some t) (bus c) (telemetry_supported c), devices)
  else if String.eqb "type:" t then
    match next with
    | None => Raise IndexError
    | Some v =>
        if String.eqb "4xxx," v
        then Ok (Candidate (name c) (bus c) true, devices)
        else Ok (c, devices)
    end
  else if String.eqb "bsf:" t then
    match next with
    | None => Raise IndexError
    | Some v =>
        Ok (Candidate (name c) (Some (slice_5_7 v)) (telemetry_supported c),
            devices)
    end
  else if String.eqb "state:" t then
    match next with
    | None => Raise IndexError
    | Some v =>
        if String.eqb "up" v then
          if telemetry_supported c
          then Ok (no_candidate, devices ++ [(name c, bus c)])
          else Ok (no_candidate, devices)
        else Ok (no_candidate, devices)
    end
  else Ok (c, devices).

(** The whole loop, from index [i] on: [toks] is [output_adf[i:]]. *)
Fixpoint adf_scan (toks : list string) (c : candidate)
    (devices : list device) : result (list device) :=
  match toks with
  | [] => Ok devices
  | t :: rest =>
      match adf_token t (head rest) c devices with
      | Ok (c', devices') => adf_scan rest c' devices'
      | Raise e => Raise e
      end
  end.

(** [devices] after the loop, from [devices.clear()] and the initial
    values of the loop variables. *)
Definition build_devices (output_adf : list string) : result (list device) :=
  adf_scan output_adf no_candidate [].

(** ** EnableTelemetry: the sorted telemetry paths *)

(** [s.split(sep)] for a separator of one character. *)
Fixpoint str_split (sep : ascii) (s : string) : list string :=
  match s with
  | EmptyString => [EmptyString]
  | String c s' =>
      if Ascii.eqb c sep then EmptyString :: str_split sep s'
      else
        match str_split sep s' with
        | w :: ws => String c w :: ws
        | [] => [String c EmptyString]
        end
  end.

(** The first component of the key [(x.split(':')[1], 16)]; the second
    component is the same for every path and decides no comparison. *)
Definition sort_key (x : string) : result string :=
  match str_split ":" x !! 1%nat with
  | Some k => Ok k
  | None => Raise IndexError
  end.

(** [sorted] calls the key function on every element, in order, before
    it compares anything. *)
Fixpoint keyed (xs : list string) : result (list (string * string)) :=
  match xs with
  | [] => Ok []
  | x :: xs' =>
      let* k := sort_key x in
      let* ks := keyed xs' in
      Ok ((k, x) :: ks)
  end.

(** [sorted] is stable and compares keys with [<]: an element goes
    after the elements whose key is smaller, and before an element of
    the same key that followed it in the input. *)
Fixpoint insert_keyed (kx : string * string) (l : list (string * string))
  : list (string * string) :=
  match l with
  | [] => [kx]
  | ky :: l' =>
      if String.ltb (fst ky) (fst kx) then ky :: insert_keyed kx l'
      else kx :: l
  end.

Definition sort_keyed (l : list (string * string)) : list (string * string) :=
  foldr insert_keyed [] l.

(** [sorted(original_array, key=lambda x: (x.split(':')[1], 16))]. *)
Definition sorted_by_key (original_array : list string)
  : result (list string) :=
  let* ks := keyed original_array in
  Ok (map snd (sort_keyed ks)).

(** ** EnableTelemetry: correlation of paths and devices *)

(** The inner [while i < len(devices)] for one [path]: the paths it
    appends to [set_paths].  [None in path] raises [TypeError]. *)
Fixpoint match_devices (path : string) (devices : list device)
  : result (list string) :=
  match devices with
  | [] => Ok []
  | d :: ds =>
      match snd d with
      | None => Raise TypeError
      | Some b =>
          let* rest := match_devices path ds in
          Ok (if str_in b path then path :: rest else rest)
      end
  end.

(** The outer [for path in paths]. *)
Fixpoint correlate (paths : list string) (devices : list device)
  : result (list string) :=
  match paths with
  | [] => Ok []
  | path :: ps =>
      let* here := match_devices path devices in
      let* rest := correlate ps devices in
      Ok (here ++ rest)
  end.

(** ** EnableTelemetry: the enable loop *)

Definition enable_command (path : string) : string :=
  "echo 1 > " ++ (path ++ "/control").

(** [for path in set_paths: try: check_output(command) except: break];
    [check_output] tells whether the command succeeded.  The value is
    the list of commands that were run. *)
Fixpoint enable_loop (check_output : string -> bool) (set_paths : list string)
  : list string :=
  match set_paths with
  | [] => []
  | path :: ps =>
      let command := enable_command path in
      if check_output command then command :: enable_loop check_output ps
      else [command]
  end.

(** ** EnableTelemetry *)

(** The three module globals. *)
Record globals : Type := Globals {
  devices : list device;
  paths : list string;
  set_paths : list string
}.

Definition no_endpoints_message : string :=
  "No telemetry supported QAT endpoints found... exiting.".

(** What a call of [EnableTelemetry] does: the lines it prints with
    [print] (standard output), the commands it runs with [check_output],
    and the globals it leaves, or the exception it raises.  After an
    exception the globals are never read again (the process ends, or
    the loop of [pbar] is left), so they are not part of the value. *)
Record enabled : Type := Enabled {
  printed : list string;
  commands : list string;
  outcome : result globals
}.

Definition EnableTelemetry (output_adf original_array : list string)
    (check_output : string -> bool) : enabled :=
  match
    (let* output_telem := sorted_by_key original_array in
     let* devs := build_devices output_adf in
     let* sp := correlate output_telem devs in
     Ok (Globals devs output_telem sp))
  with
  | Raise e => Enabled [] [] (Raise e)
  | Ok g =>
      match set_paths g with
      | [] => Enabled [no_endpoints_message] [] (Raise (SystemExit None))
      | _ :: _ => Enabled [] (enable_loop check_output (set_paths g)) (Ok g)
      end
  end.

(** ** pbar: [int], [/] and [round] *)

Definition digit_of (c : ascii) : option Z :=
  let n := Z.of_N (N_of_ascii c) in
  if ((48 <=? n) && (n <=? 57))%Z then Some (n - 48)%Z else None.

(** Decimal digits, with single underscores between digits (accepted by
    [int] since Python 3.6, the version the script names). *)
Fixpoint int_digits (s : string) (acc : Z) (after_digit : bool) : option Z :=
  match s with
  | EmptyString => if after_digit then Some acc else None
  | String c s' =>
      if Ascii.eqb c "_" then
        if after_digit then int_digits s' acc false else None
      else
        match digit_of c with
        | Some d => int_digits s' (10 * acc + d)%Z true
        | None => None
        end
  end.

(** [int(s)] for a token [s] (no white space) of ASCII characters:
    [None] is [ValueError]. *)
Definition py_int (s : string) : option Z :=
  match s with
  | String "-" s' => option_map Z.opp (int_digits s' 0 false)
  | String "+" s' => int_digits s' 0 false
  | _ => int_digits s 0 false
  end.

(** [str(z)] for an integer. *)
Definition py_str (z : Z) : string := NilZero.string_of_int (Z.to_int z).

(** The integer nearest to [p / q] for [q > 0], a tie going to the even
    neighbour: the rounding of binary64 arithmetic and of [round]. *)
Definition round_half_even (p q : Z) : Z :=
  let d := (p / q)%Z in
  let r := (p mod q)%Z in
  if (2 * r <? q)%Z then d
  else if (q <? 2 * r)%Z then (d + 1)%Z
  else if Z.even d then d else (d + 1)%Z.

(** A binary64 number [mant / 2 ^ scale] (or [mant * 2 ^ (- scale)] when
    [scale] is negative), with [mant <= 2 ^ 53]. *)
Record float : Type := Float { mant : Z; scale : Z }.

(** [a / b] for two positive [int]s: the quotient correctly rounded to
    53 significant bits, [OverflowError] when it does not fit a float.
    [e] is the exponent of the quotient, [2 ^ e <= a / b < 2 ^ (e + 1)]. *)
Definition true_divide (a b : Z) : result float :=
  let k := (Z.log2 a - Z.log2 b)%Z in
  let e :=
    if (a * 2 ^ Z.max 0 (- k) <? b * 2 ^ Z.max 0 k)%Z then (k - 1)%Z else k in
  let sc := (52 - e)%Z in
  let m :=
    if (0 <=? sc)%Z then round_half_even (a * 2 ^ sc)%Z b
    else round_half_even a (b * 2 ^ (- sc))%Z in
  if ((1024 <=? e) || ((e =? 1023) && (m =? 2 ^ 53)))%Z
  then Raise OverflowError
  else Ok (Float m sc).

(** [round(x)] of a float to an [int]. *)
Definition py_round (x : float) : Z :=
  if (0 <? scale x)%Z then round_half_even (mant x) (2 ^ scale x)%Z
  else (mant x * 2 ^ (- scale x))%Z.

(** ** pbar: the counter dump *)

(** The [if]/[elif] chain of the parsing loop: the key compared with
    [output[i]] and the local variable assigned [output[i+1]]. *)
Definition counter_variables : list (string * string) :=
  [ ("lat_acc_avg", "latency");
    ("util_cpr0", "compression");
    ("util_dcpr0", "decompression0");
    ("util_dcpr1", "decompression1");
    ("util_dcpr2", "decompression2");
    ("util_pke0", "pke0");
    ("util_pke1", "pke1");
    ("util_pke2", "pke2");
    ("util_pke3", "pke3");
    ("util_pke4", "pke4");
    ("util_pke5", "pke5");
    ("util_cph0", "cph0");
    ("util_cph1", "cph1");
    ("util_cph2", "cph2");
    ("util_cph3", "cph3");
    ("util_ath0", "ath0");
    ("util_ath1", "ath1");
    ("util_ath2", "ath2");
    ("util_ath3", "ath3");
    ("util_ucs0", "ucs0");
    ("util_ucs1", "ucs1") ].

(** The first branch of the chain whose key equals [t]. *)
Fixpoint variable_of (t : string) (chain : list (string * string))
  : option string :=
  match chain with
  | [] => None
  | (key, var) :: chain' =>
      if String.eqb key t then Some var else variable_of t chain'
  end.

(** The local variables of [pbar] that hold counter values: a variable
    that was never assigned has no entry. *)
Abbreviation locals := (gmap string string).

(** The loop [while i < len(output)], from index [i] on. *)
Fixpoint parse_dump (output : list string) (env : locals) : result locals :=
  match output with
  | [] => Ok env
  | t :: rest =>
      match variable_of t counter_variables with
      | None => parse_dump rest env
      | Some var =>
          match rest with
          | [] => Raise IndexError
          | v :: _ => parse_dump rest (<[var := v]> env)
          end
      end
  end.

(** Reading a local variable. *)
Definition read (env : locals) (var : string) : result string :=
  match env !! var with
  | Some v => Ok v
  | None => Raise UnboundLocalError
  end.

(** [int(var)]. *)
Definition int_of (env : locals) (var : string) : result Z :=
  let* v := read env var in
  match py_int v with
  | Some z => Ok z
  | None => Raise ValueError
  end.

(** [int(v1) + int(v2) + ...], evaluated from the left. *)
Fixpoint sum_of (env : locals) (vars : list string) (acc : Z) : result Z :=
  match vars with
  | [] => Ok acc
  | var :: vars' =>
      let* z := int_of env var in
      sum_of env vars' (acc + z)%Z
  end.

(** [u = int(v1) + ...; if u > 0: u = u / n; u = round(u)]. *)
Definition aggregate (s n : Z) : result Z :=
  if (0 <? s)%Z then
    let* x := true_divide s n in
    Ok (py_round x)
  else Ok s.

Definition utilization (env : locals) (vars : list string) (n : Z)
  : result Z :=
  let* s := sum_of env vars 0 in
  aggregate s n.

Definition decompression_vars : list string :=
  ["decompression0"; "decompression1"; "decompression2"].
Definition pke_vars : list string :=
  ["pke0"; "pke1"; "pke2"; "pke3"; "pke4"; "pke5"].
Definition cph_vars : list string := ["cph0"; "cph1"; "cph2"; "cph3"].
Definition ath_vars : list string := ["ath0"; "ath1"; "ath2"; "ath3"].
Definition ucs_vars : list string := ["ucs0"; "ucs1"].

(** The values shown in one row, as the script computes them. *)
Record snapshot : Type := Snapshot {
  compression : string;
  decompress_utilization : Z;
  pke_utilization : Z;
  cph_utilization : Z;
  ath_utilization : Z;
  usc_utilization : Z;
  latency : string
}.

(** ** pbar: one row *)

Definition tab : string := String (ascii_of_nat 9) EmptyString.

(** The calls made on the curses window and [time.sleep]. *)
Inductive call : Type :=
| addstr (y x : nat) (text : string)
| refresh
| clear
| sleep (seconds : nat).

Definition title_text : string := "Intel(R) QuickAssist Device Utilization".

Definition heading_text : string :=
  "Device" ++ tab ++ "%Comp" ++ tab ++ "%Decomp" ++ tab ++ "%PKE" ++ tab
  ++ "%Cipher" ++ tab ++ "%Auth" ++ tab ++ "%UCS" ++ tab ++ "Latency(ns)".

Definition rule_text : string :=
  "=========================================================================".

(** The text written first when [int(latency) == 0]. *)
Definition idle_text (name : string) : string :=
  name ++ tab ++ "0" ++ tab ++ "0" ++ tab ++ "0" ++ tab ++ "0" ++ tab ++ "0"
  ++ tab ++ "00                 ".

(** The text of the row. *)
Definition row_text (name : string) (s : snapshot) : string :=
  name ++ tab ++ compression s
  ++ tab ++ py_str (decompress_utilization s)
  ++ tab ++ py_str (pke_utilization s)
  ++ tab ++ py_str (cph_utilization s)
  ++ tab ++ py_str (ath_utilization s)
  ++ tab ++ py_str (usc_utilization s)
  ++ tab ++ latency s.

(** The statements from [decompress_utilization = ...] to
    [usc_utilization = round(usc_utilization)], and [int(latency)]. *)
Record aggregates : Type := Aggregates {
  decompress : Z;
  pke : Z;
  cph : Z;
  ath : Z;
  usc : Z;
  latency_value : Z
}.

Definition compute_aggregates (env : locals) : result aggregates :=
  let* d := utilization env decompression_vars 3 in
  let* p := utilization env pke_vars 6 in
  let* c := utilization env cph_vars 4 in
  let* a := utilization env ath_vars 4 in
  let* u := utilization env ucs_vars 2 in
  let* l := int_of env "latency" in
  Ok (Aggregates d p c a u l).

(** The snapshot shown by the last [addstr] of the body. *)
Definition take_snapshot (env : locals) (a : aggregates) : result snapshot :=
  let* c := read env "compression" in
  let* l := read env "latency" in
  Ok (Snapshot c (decompress a) (pke a) (cph a) (ath a) (usc a) l).

Definition device_data_command (path : string) : string :=
  "cat " ++ (path ++ "/device_data").

(** The body of [for device in devices], at [count]: the calls it makes
    on the window and the locals it leaves, or the exception it raises.
    [popen] gives the tokens a command prints. *)
Definition pbar_device (popen : string -> list string)
    (set_paths : list string) (env : locals) (count : nat) (d : device)
  : list call * result locals :=
  match set_paths !! count with
  | None => ([], Raise IndexError)
  | Some path =>
      let output := popen (device_data_command path) in
      match (let* env' := parse_dump output env in
             let* a := compute_aggregates env' in
             Ok (env', a)) with
      | Raise e => ([], Raise e)
      | Ok (env', a) =>
          match fst d with
          | None => ([], Raise TypeError)
          | Some name =>
              let idle :=
                if (latency_value a =? 0)%Z
                then [addstr (4 + count) 10 (idle_text name)]
                else [] in
              match take_snapshot env' a with
              | Raise e => (idle, Raise e)
              | Ok s =>
                  (idle ++ [addstr (4 + count) 10 (row_text name s)], Ok env')
              end
          end
      end
  end.

(** The loop [for device in devices], from [count] on. *)
Fixpoint pbar_devices (popen : string -> list string)
    (set_paths : list string) (ds : list device) (count : nat) (env : locals)
  : list call * result (locals * nat) :=
  match ds with
  | [] => ([], Ok (env, count))
  | d :: ds' =>
      match pbar_device popen set_paths env count d with
      | (cs, Raise e) => (cs, Raise e)
      | (cs, Ok env') =>
          let (cs', r) := pbar_devices popen set_paths ds' (S count) env' in
          (cs ++ cs', r)
      end
  end.

Definition header_calls : list call :=
  [addstr 0 10 title_text; addstr 2 10 heading_text; addstr 3 10 rule_text].

(** One render tick: the body of [try] up to [time.sleep(2)]. *)
Definition pbar_tick (popen : string -> list string) (g : globals)
    (env : locals) : list call * result locals :=
  match pbar_devices popen (set_paths g) (devices g) 0 env with
  | (cs, Raise e) => (header_calls ++ cs, Raise e)
  | (cs, Ok (env', count)) =>
      (header_calls ++ cs ++ [addstr (4 + count) 10 rule_text; refresh; sleep 2],
       Ok env')
  end.

(** ** The process *)

(** What the external commands answer: [adf_ctl status], [find] and the
    control write at the [n]-th discovery cycle (0 for the call in the
    main block, [k] for the call at render tick [5 * k]), and [cat] at
    render tick [n].  The three [Popen] calls capture both streams of
    their command; [check_output] captures the standard output only, so
    what the shell of a control write puts on its standard error
    ([control_stderr], line by line) reaches the standard error of the
    script. *)
Record host : Type := Host {
  adf_ctl_status : nat -> list string;
  find_telemetry : nat -> list string;
  control_write : nat -> string -> bool;
  cat_device_data : nat -> string -> list string;
  control_stderr : nat -> string -> list string
}.

(** What reaches the standard error of the script: the traceback of an
    uncaught exception, or a line written by the shell of a control
    write. *)
Inductive complaint : Type :=
| Traceback (e : exn)
| Diagnostic (line : string).

(** What the process has done: lines on standard output, what reached
    standard error (a traceback for an uncaught exception, the lines of
    the shells of the control writes), commands run with [check_output],
    calls on the window, render ticks completed, and the exit status
    once the process has ended. *)
Record process : Type := Process {
  stdout : list string;
  stderr : list complaint;
  shell : list string;
  window : list call;
  ticks : nat;
  exit_status : option Z
}.

Definition draw (cs : list call) (p : process) : process :=
  Process (stdout p) (stderr p) (shell p) (window p ++ cs) (ticks p)
          (exit_status p).

Definition tick_done (p : process) : process :=
  Process (stdout p) (stderr p) (shell p) (window p) (S (ticks p))
          (exit_status p).

(** The lines that the shells of the commands put on standard error,
    [diagnostic] giving those of one command. *)
Definition diagnostics (diagnostic : string -> list string)
    (commands : list string) : list complaint :=
  map Diagnostic (flat_map diagnostic commands).

(** The process after a call of [EnableTelemetry]: what the call
    printed, the commands it ran, and what their shells put on standard
    error. *)
Definition discovered (diagnostic : string -> list string) (e : enabled)
    (p : process) : process :=
  Process (stdout p ++ printed e)
          (stderr p ++ diagnostics diagnostic (commands e))
          (shell p ++ commands e)
          (window p) (ticks p) (exit_status p).

Definition exit (status : Z) (p : process) : process :=
  Process (stdout p) (stderr p) (shell p) (window p) (ticks p) (Some status).

Definition traceback (e : exn) (p : process) : process :=
  Process (stdout p) (stderr p ++ [Traceback e]) (shell p) (window p)
          (ticks p) (exit_status p).

Definition discover (h : host) (n : nat) : enabled :=
  EnableTelemetry (adf_ctl_status h n) (find_telemetry h n) (control_write h n).

(** [pbar]: the loop [while True], at most [fuel] iterations of it.  Both
    handlers of the [try] leave the loop; [pbar] then returns, and so
    does [curses.wrapper]: the script ends with status 0.  When the fuel
    runs out the process is still running ([exit_status] is [None]). *)
Fixpoint pbar (h : host) (fuel : nat) (refresh_counter : nat) (g : globals)
    (env : locals) (p : process) : process :=
  match fuel with
  | O => p
  | S fuel' =>
      let refresh_counter := S refresh_counter in
      match pbar_tick (cat_device_data h refresh_counter) g env with
      | (cs, Raise _) => exit 0 (draw cs p)
      | (cs, Ok env') =>
          let p := tick_done (draw cs p) in
          if (refresh_counter mod 5 =? 0)%nat then
            let e := discover h (refresh_counter / 5) in
            let p :=
              discovered (control_stderr h (refresh_counter / 5)) e
                (draw [clear] p) in
            match outcome e with
            | Raise _ => exit 0 p
            | Ok g' => pbar h fuel' refresh_counter g' env' p
            end
          else pbar h fuel' refresh_counter g env' p
      end
  end.

(** The status of a process that ends with an uncaught exception:
    [SystemExit(None)] is status 0 and prints nothing, any other
    exception prints a traceback and is status 1. *)
Definition uncaught (e : exn) (p : process) : process :=
  match e with
  | SystemExit None => exit 0 p
  | SystemExit (Some status) => exit status p
  | _ => exit 1 (traceback e p)
  end.

(** The main block: [EnableTelemetry()], then [curses.wrapper(pbar)]. *)
Definition main (h : host) (fuel : nat) : process :=
  let e := discover h 0 in
  let p := discovered (control_stderr h 0) e (Process [] [] [] [] 0 None) in
  match outcome e with
  | Raise exc => uncaught exc p
  | Ok g => pbar h fuel 0 g ∅ p
  end.

(** ** Vocabulary of the properties *)

(** A token that is none of the three keys read with a look-ahead. *)
Definition plain (t : string) : bool :=
  negb (String.eqb "type:" t) && negb (String.eqb "bsf:" t)
  && negb (String.eqb "state:" t).

(** The value of [name] after the tokens [toks], none of which is
    [state:], when it was [nm] before them. *)
Definition name_after (nm : option string) (toks : list string)
  : option string :=
  fold_left (fun n t => if str_in "qat_dev" t then Some t else n) toks nm.

(** No [state:] token of the stream is followed by [up]. *)
Definition never_up (toks : list string) : Prop :=
  forall i : nat, toks !! i = Some "state:" -> toks !! S i <> Some "up".

(** Two results agree: the same exception, or values related by [R]. *)
Definition same_outcome {A : Type} (R : A -> A -> Prop) (r1 r2 : result A)
  : Prop :=
  match r1, r2 with
  | Ok a1, Ok a2 => R a1 a2
  | Raise e1, Raise e2 => e1 = e2
  | _, _ => False
  end.

(** The device has a bus identifier, and it occurs in [path]. *)
Definition bus_in (path : string) (d : device) : bool :=
  match snd d with
  | Some b => str_in b path
  | None => false
  end.

Definition has_bus (d : device) : bool :=
  match snd d with
  | Some _ => true
  | None => false
  end.

(** The number of devices whose bus identifier occurs in [path]. *)
Definition matches (path : string) (devs : list device) : nat :=
  length (List.filter (bus_in path) devs).

(** [r] is an integer nearest to [s / n], for [n > 0]. *)
Definition nearest (s n r : Z) : Prop := (2 * Z.abs (n * r - s) <= n)%Z.

(** The variable [var] holds a token that [int] reads as [z]. *)
Definition holds (env : locals) (var : string) (z : Z) : Prop :=
  exists tok : string, env !! var = Some tok /\ py_int tok = Some z.

Definition sum_Z (zs : list Z) : Z := foldr Z.add 0%Z zs.

(** The snapshot of the row, from the locals left by the parsing loop. *)
Definition snapshot_of (env : locals) : result snapshot :=
  let* a := compute_aggregates env in
  take_snapshot env a.

(** The five categories with more than one sub-unit: the variables of
    the sub-units, their number, and the field of the snapshot. *)
Definition categories : list (list string * Z * (snapshot -> Z)) :=
  [ (decompression_vars, 3%Z, decompress_utilization);
    (pke_vars, 6%Z, pke_utilization);
    (cph_vars, 4%Z, cph_utilization);
    (ath_vars, 4%Z, ath_utilization);
    (ucs_vars, 2%Z, usc_utilization) ].

(** The value that the parsing loop assigns last to [var], if any. *)
Fixpoint assigned (output : list string) (var : string) : option string :=
  match output with
  | [] => None
  | t :: rest =>
      match assigned rest var with
      | Some v => Some v
      | None =>
          match variable_of t counter_variables, rest with
          | Some var', v :: _ => if String.eqb var' var then Some v else None
          | _, _ => None
          end
      end
  end.

(** The local variables that the parsing loop assigns. *)
Definition counter_locals : list string := map snd counter_variables.

(** The dump has every key of the chain. *)
Definition complete (output : list string) : Prop :=
  forall key var : string, In (key, var) counter_variables -> In key output.

(** Two sets of locals hold the same counter values. *)
Definition agree (env1 env2 : locals) : Prop :=
  forall var : string, In var counter_locals -> env1 !! var = env2 !! var.

(** The discovery cycle [n] of the host correlates no endpoint. *)
Definition no_endpoints (h : host) (n : nat) : Prop :=
  exists (output_telem : list string) (devs : list device),
    sorted_by_key (find_telemetry h n) = Ok output_telem
    /\ build_devices (adf_ctl_status h n) = Ok devs
    /\ correlate output_telem devs = Ok [].



(** ** Inputs of the examples *)

(** Two devices as [adf_ctl status] lists them, and their telemetry
    directories as [find] lists them. *)
Definition status_two_devices : list string :=
  [ "Checking"; "status"; "of"; "all"; "devices.";
    "There"; "is"; "2"; "QAT"; "acceleration"; "device(s)"; "in"; "the";
    "system:";
    "qat_dev0"; "-"; "type:"; "4xxx,"; "inst_id:"; "0,"; "node_id:"; "0,";
    "bsf:"; "0000:6b:00.0,"; "#accel:"; "1"; "#engines:"; "9";
    "state:"; "up";
    "qat_dev1"; "-"; "type:"; "4xxx,"; "inst_id:"; "1,"; "node_id:"; "0,";
    "bsf:"; "0000:70:00.0,"; "#accel:"; "1"; "#engines:"; "9";
    "state:"; "up" ].

Definition telemetry_6b : string :=
  "/sys/devices/pci0000:6b/0000:6b:00.0/telemetry".

Definition telemetry_70 : string :=
  "/sys/devices/pci0000:70/0000:70:00.0/telemetry".

(** A device whose status line has no [bsf:] field. *)
Definition status_without_bsf : list string :=
  ["qat_dev0"; "-"; "type:"; "4xxx,"; "state:"; "up"].

(** A counter dump with every key: the latency, the compression unit
    and the first decompression unit as given, every other unit idle. *)
Definition dump (lat cpr dcpr0 : string) : list string :=
  [ "lat_acc_avg"; lat; "util_cpr0"; cpr; "util_dcpr0"; dcpr0;
    "util_dcpr1"; "0"; "util_dcpr2"; "0";
    "util_pke0"; "0"; "util_pke1"; "0"; "util_pke2"; "0"; "util_pke3"; "0";
    "util_pke4"; "0"; "util_pke5"; "0";
    "util_cph0"; "0"; "util_cph1"; "0"; "util_cph2"; "0"; "util_cph3"; "0";
    "util_ath0"; "0"; "util_ath1"; "0"; "util_ath2"; "0"; "util_ath3"; "0";
    "util_ucs0"; "0"; "util_ucs1"; "0" ].

(** The same dump without the key [util_cpr0]. *)
Definition dump_without_cpr (lat dcpr0 : string) : list string :=
  [ "lat_acc_avg"; lat; "util_dcpr0"; dcpr0;
    "util_dcpr1"; "0"; "util_dcpr2"; "0";
    "util_pke0"; "0"; "util_pke1"; "0"; "util_pke2"; "0"; "util_pke3"; "0";
    "util_pke4"; "0"; "util_pke5"; "0";
    "util_cph0"; "0"; "util_cph1"; "0"; "util_cph2"; "0"; "util_cph3"; "0";
    "util_ath0"; "0"; "util_ath1"; "0"; "util_ath2"; "0"; "util_ath3"; "0";
    "util_ucs0"; "0"; "util_ucs1"; "0" ].

(** The locals after the parsing loop has read [output] with no
    variable assigned before. *)
Definition locals_after (output : list string) : locals :=
  match parse_dump output ∅ with
  | Ok env => env
  | Raise _ => ∅
  end.

(** A host where both commands of the discovery print nothing. *)
Definition quiet_host : host :=
  Host (fun _ => []) (fun _ => []) (fun _ _ => true) (fun _ _ => [])
       (fun _ _ => []).

(** The two devices in the order 70, 6b of their status lines. *)
Definition status_70_then_6b : list string :=
  [ "qat_dev0"; "-"; "type:"; "4xxx,"; "bsf:"; "0000:70:00.0,";
    "state:"; "up";
    "qat_dev1"; "-"; "type:"; "4xxx,"; "bsf:"; "0000:6b:00.0,";
    "state:"; "up" ].

(** [cat] of the two telemetry directories: the compression unit is at
    11 per cent on bus 6b and at 22 per cent on bus 70. *)
Definition cat_11_and_22 (command : string) : list string :=
  if String.eqb command (device_data_command telemetry_6b)
  then dump "5" "11" "0"
  else dump "5" "22" "0".

(** The control write fails for the endpoint of bus 6b only. *)
Definition fails_on_6b (command : string) : bool :=
  negb (String.eqb command (enable_command telemetry_6b)).

(** The globals after a discovery of the two devices. *)
Definition two_endpoints : globals :=
  Globals [(Some "qat_dev0", Some "6b"); (Some "qat_dev1", Some "70")]
          [telemetry_6b; telemetry_70] [telemetry_6b; telemetry_70].


(** [cat] where the dump of bus 6b lacks the key [util_cpr0] and the
    dump of bus 70 is complete. *)
Definition cat_6b_incomplete (command : string) : list string :=
  if String.eqb command (device_data_command telemetry_6b)
  then dump_without_cpr "5" "0"
  else dump "5" "22" "0".

(** The two devices, the first of them with the incomplete dump. *)
Definition host_6b_incomplete : host :=
  Host (fun _ => status_two_devices) (fun _ => [telemetry_6b; telemetry_70])
       (fun _ _ => true) (fun _ => cat_6b_incomplete) (fun _ _ => []).

(** ** Vocabulary of further properties *)

(** [x] goes before [y] in the order of the sort keys: the key of [y]
    is not below the key of [x]. *)
Definition key_le (x y : string) : Prop :=
  forall kx ky : string,
    sort_key x = Ok kx -> sort_key y = Ok ky -> String.ltb ky kx = false.

(** The same order on the pairs of a key and its path. *)
Definition keys_le (kx ky : string * string) : Prop :=
  String.ltb (fst ky) (fst kx) = false.

(** The sort key of [x] is [k]. *)
Definition has_key (k : string) (x : string) : bool :=
  match sort_key x with
  | Ok k' => String.eqb k k'
  | Raise _ => false
  end.

(** The record is made of tokens of the listing [all]: its name, if
    any, is a token with [qat_dev], and its bus identifier, if any, is
    cut from a token that follows [bsf:]. *)
Definition from_listing (all : list string) (d : device) : Prop :=
  (fst d = None
   \/ exists t, In t all /\ str_in "qat_dev" t = true /\ fst d = Some t)
  /\ (snd d = None
      \/ exists pre t post,
          all = pre ++ "bsf:" :: t :: post
          /\ snd d = Some (String.substring 5 2 t)).

Definition candidate_from (all : list string) (c : candidate) : Prop :=
  from_listing all (name c, bus c).

(** The number of [state:] tokens followed by [up]. *)
Fixpoint ups (toks : list string) : nat :=
  match toks with
  | [] => 0
  | t :: rest =>
      (if String.eqb "state:" t
          && match rest with
             | v :: _ => String.eqb "up" v
             | [] => false
             end
       then 1 else 0) + ups rest
  end.

(** One device of a listing: its name, the value of [type:], the value
    of [bsf:], the value of [state:], and the tokens in between. *)
Record status_line : Type := StatusLine {
  line_name : string;
  line_before : list string;
  line_type : string;
  line_between : list string;
  line_bsf : string;
  line_after : list string;
  line_state : string
}.

Definition line_tokens (l : status_line) : list string :=
  line_name l :: line_before l
    ++ "type:" :: line_type l :: line_between l
    ++ "bsf:" :: line_bsf l :: line_after l
    ++ ["state:"; line_state l].

(** A token that is neither a key nor a name. *)
Definition quiet (t : string) : bool := plain t && negb (str_in "qat_dev" t).

(** The name is a name, every other token of the line is quiet. *)
Definition well_formed (l : status_line) : Prop :=
  str_in "qat_dev" (line_name l) = true
  /\ Forall (fun t => quiet t = true)
       (line_before l ++ line_type l :: line_between l
          ++ line_bsf l :: line_after l ++ [line_state l]).

Definition line_record (l : status_line) : device :=
  (Some (line_name l), Some (String.substring 5 2 (line_bsf l))).

(** The device has the supported type and is up. *)
Definition line_up (l : status_line) : bool :=
  String.eqb "4xxx," (line_type l) && String.eqb "up" (line_state l).

(** The token is a key of the chain. *)
Definition is_key (t : string) : bool :=
  match variable_of t counter_variables with
  | Some _ => true
  | None => false
  end.

Definition is_refresh (c : call) : bool :=
  match c with
  | refresh => true
  | _ => false
  end.

Definition is_clear (c : call) : bool :=
  match c with
  | clear => true
  | _ => false
  end.

Definition is_sleep_2 (c : call) : bool :=
  match c with
  | sleep 2 => true
  | _ => false
  end.

(** The number of calls of one kind. *)
Definition times (f : call -> bool) (cs : list call) : nat :=
  length (List.filter f cs).

(** The call writes at column 10 of a line from [first] to below [bound]. *)
Definition row_between (first bound : nat) (c : call) : Prop :=
  exists (y : nat) (text : string),
    c = addstr y 10 text /\ (first <= y < bound)%nat.

(** The window of a process between two iterations of the loop: one
    refresh and one sleep for each tick, one clear for each five. *)
Definition in_step (p : process) : Prop :=
  times is_refresh (window p) = ticks p
  /\ times is_sleep_2 (window p) = ticks p
  /\ times is_clear (window p) = (ticks p / 5)%nat.

(** The command has the text of the control write for a token that
    [find] printed at a discovery cycle up to tick [bound]. *)
Definition enables_found (h : host) (bound : nat) (c : string) : Prop :=
  exists (n : nat) (path : string),
    (5 * n <= bound)%nat
    /\ In path (find_telemetry h n)
    /\ c = enable_command path.

(** The entry of the standard error is a line that the shell of one of
    the [commands] wrote, at some discovery cycle. *)
Definition from_shell (h : host) (commands : list string) (r : complaint)
  : Prop :=
  exists (n : nat) (command line : string),
    In command commands
    /\ In line (control_stderr h n command)
    /\ r = Diagnostic line.

(** ** Inputs of further examples *)

(** The two devices, and a telemetry directory for the first only. *)
Definition host_one_path : host :=
  Host (fun _ => status_two_devices) (fun _ => [telemetry_6b])
       (fun _ _ => true) (fun _ => cat_11_and_22) (fun _ _ => []).

(** What the shell says when it may not write the control file. *)
Definition permission_denied (command : string) : list string :=
  ["sh: 1: cannot create control file: Permission denied"].

(** The two devices and their directories; every control write fails,
    and its shell says so. *)
Definition host_write_denied : host :=
  Host (fun _ => status_two_devices) (fun _ => [telemetry_6b; telemetry_70])
       (fun _ _ => false) (fun _ => cat_11_and_22)
       (fun _ => permission_denied).

(** The two status lines of [status_two_devices], the second one down. *)
Definition line_6b : status_line :=
  StatusLine "qat_dev0" ["-"] "4xxx," ["inst_id:"; "0,"; "node_id:"; "0,"]
    "0000:6b:00.0," ["#accel:"; "1"; "#engines:"; "9"] "up".

Definition line_70_down : status_line :=
  StatusLine "qat_dev1" ["-"] "4xxx," ["inst_id:"; "1,"; "node_id:"; "0,"]
    "0000:70:00.0," ["#accel:"; "1"; "#engines:"; "9"] "down".

(** * Properties *)

(** ** Results *)

Lemma rbind_Ok {A B : Type} (r : result A) (k : A -> result B) (b : B) :
  rbind r k = Ok b -> exists a, r = Ok a /\ k a = Ok b.
Proof. destruct r as [a|e]; simpl; intros H; [eauto | discriminate]. Qed.

(** ** The device inventory *)

Section Inventory.

Implicit Types (t : string) (toks : list string) (c : candidate)
  (devs : list device).

Lemma candidate_eta c :
  Candidate (name c) (bus c) (telemetry_supported c) = c.
Proof. destruct c; reflexivity. Qed.

Lemma plain_spec t :
  plain t = true <-> t <> "type:" /\ t <> "bsf:" /\ t <> "state:".
Proof.
  unfold plain. rewrite !andb_true_iff, !negb_true_iff.
  rewrite !String.eqb_neq. intuition congruence.
Qed.

(** A plain token changes at most [name], whatever follows it. *)
Lemma adf_token_plain t next c devs :
  plain t = true ->
  adf_token t next c devs =
    Ok (Candidate (name_after (name c) [t]) (bus c) (telemetry_supported c),
        devs).
Proof.
  intros Hp. apply plain_spec in Hp as (Ht & Hb & Hs).
  change (name_after (name c) [t])
    with (if str_in "qat_dev" t then Some t else name c).
  unfold adf_token.
  destruct (str_in "qat_dev" t); [reflexivity|].
  apply not_eq_sym, String.eqb_neq in Ht, Hb, Hs.
  rewrite Ht, Hb, Hs, candidate_eta. reflexivity.
Qed.

Lemma name_after_app nm toks1 toks2 :
  name_after nm (toks1 ++ toks2) = name_after (name_after nm toks1) toks2.
Proof. apply fold_left_app. Qed.

Lemma adf_scan_plain toks rest c devs :
  Forall (fun t => plain t = true) toks ->
  adf_scan (toks ++ rest) c devs =
    adf_scan rest
      (Candidate (name_after (name c) toks) (bus c) (telemetry_supported c))
      devs.
Proof.
  intros H. revert c. induction H as [|t toks Ht _ IH]; intros c.
  - simpl. now rewrite candidate_eta.
  - simpl app. cbn [adf_scan]. rewrite (adf_token_plain _ _ _ _ Ht).
    rewrite IH. reflexivity.
Qed.

Lemma adf_scan_plain1 t rest c devs :
  plain t = true ->
  adf_scan (t :: rest) c devs =
    adf_scan rest
      (Candidate (name_after (name c) [t]) (bus c) (telemetry_supported c))
      devs.
Proof. intros Ht. apply (adf_scan_plain [t]). now constructor. Qed.

Lemma adf_scan_cons t rest c devs c' devs' :
  adf_token t (head rest) c devs = Ok (c', devs') ->
  adf_scan (t :: rest) c devs = adf_scan rest c' devs'.
Proof. intros H. cbn [adf_scan]. now rewrite H. Qed.

Lemma adf_scan_type rest c devs :
  adf_scan ("type:" :: "4xxx," :: rest) c devs =
    adf_scan rest (Candidate (name c) (bus c) true) devs.
Proof.
  rewrite (adf_scan_cons _ _ _ _ (Candidate (name c) (bus c) true) devs)
    by reflexivity.
  now rewrite adf_scan_plain1 by reflexivity.
Qed.

Lemma adf_scan_bsf b rest c devs :
  plain b = true ->
  adf_scan ("bsf:" :: b :: rest) c devs =
    adf_scan rest
      (Candidate (name_after (name c) [b]) (Some (slice_5_7 b))
                 (telemetry_supported c)) devs.
Proof.
  intros Hb.
  rewrite (adf_scan_cons _ _ _ _
             (Candidate (name c) (Some (slice_5_7 b))
                        (telemetry_supported c)) devs) by reflexivity.
  now rewrite adf_scan_plain1 by assumption.
Qed.

Lemma adf_scan_state_up rest c devs :
  adf_scan ("state:" :: "up" :: rest) c devs =
    adf_scan rest no_candidate
      (if telemetry_supported c then devs ++ [(name c, bus c)] else devs).
Proof.
  rewrite (adf_scan_cons _ _ _ _ no_candidate
             (if telemetry_supported c
              then devs ++ [(name c, bus c)] else devs)).
  - now rewrite adf_scan_plain1 by reflexivity.
  - unfold adf_token. cbn [head].
    change (str_in "qat_dev" "state:") with false.
    change (String.eqb "type:" "state:") with false.
    change (String.eqb "bsf:" "state:") with false.
    change (String.eqb "state:" "state:") with true.
    change (String.eqb "up" "up") with true.
    cbv iota. destruct (telemetry_supported c); reflexivity.
Qed.

(** Plain tokens to the end of the stream add no record. *)
Lemma adf_scan_plain_end toks c devs :
  Forall (fun t => plain t = true) toks -> adf_scan toks c devs = Ok devs.
Proof.
  intros H. rewrite <- (app_nil_r toks). now rewrite adf_scan_plain.
Qed.

(** Unless it is [state:] followed by [up], a token leaves [devices]
    as it is; it raises [IndexError] or goes on. *)
Lemma adf_token_keeps t next c devs :
  ~ (t = "state:" /\ next = Some "up") ->
  (exists c', adf_token t next c devs = Ok (c', devs))
  \/ (next = None /\ plain t = false
      /\ adf_token t next c devs = Raise IndexError).
Proof.
  intros Hup. unfold adf_token.
  destruct (str_in "qat_dev" t); [eauto|].
  destruct (String.eqb_spec "type:" t) as [<-|Ht].
  { destruct next as [v|]; [destruct (String.eqb "4xxx," v); eauto|].
    right; auto. }
  destruct (String.eqb_spec "bsf:" t) as [<-|Hb].
  { destruct next as [v|]; [eauto | right; auto]. }
  destruct (String.eqb_spec "state:" t) as [<-|Hs]; [|eauto].
  destruct next as [v|]; [|right; auto].
  destruct (String.eqb_spec "up" v) as [<-|Hv]; [|eauto].
  exfalso. apply Hup. auto.
Qed.

Lemma never_up_tail t toks : never_up (t :: toks) -> never_up toks.
Proof. intros H i Hi. exact (H (S i) Hi). Qed.

Lemma never_up_head t toks :
  never_up (t :: toks) -> ~ (t = "state:" /\ head toks = Some "up").
Proof.
  intros H [-> Hh]. apply (H 0%nat); [reflexivity|].
  destruct toks; simpl in *; congruence.
Qed.

End Inventory.

Section InventoryClaims.

Implicit Types (t b : string) (toks pre mid post : list string).

Lemma name_after_cons nm t toks :
  name_after nm (t :: toks) =
    name_after (if str_in "qat_dev" t then Some t else nm) toks.
Proof. reflexivity. Qed.

(** C3. A token stream with one candidate, made of a [type:] token
    followed by the supported type and a [bsf:] token followed by a
    token [b] (in either order, among tokens that are no keys), then
    [state: up] and no further key, gives an inventory of exactly one
    record, whose bus identifier is the characters of [b] at offsets 5
    and 6; its name is the last token with [qat_dev] before [state:]. *)
Theorem up_candidate_is_recorded pre mid post tail b body :
  Forall (fun t => plain t = true) pre ->
  Forall (fun t => plain t = true) mid ->
  Forall (fun t => plain t = true) post ->
  Forall (fun t => plain t = true) tail ->
  plain b = true ->
  body = pre ++ "type:" :: "4xxx," :: mid ++ "bsf:" :: b :: post
  \/ body = pre ++ "bsf:" :: b :: mid ++ "type:" :: "4xxx," :: post ->
  build_devices (body ++ "state:" :: "up" :: tail) =
    Ok [(name_after None body, Some (String.substring 5 2 b))].
Proof.
  intros Hpre Hmid Hpost Htail Hb [-> | ->]; unfold build_devices.
  - rewrite <- !app_assoc, adf_scan_plain by assumption.
    rewrite <- !app_comm_cons, adf_scan_type.
    rewrite <- !app_assoc, adf_scan_plain by assumption.
    rewrite <- !app_comm_cons, adf_scan_bsf by assumption.
    rewrite adf_scan_plain, adf_scan_state_up by assumption.
    rewrite adf_scan_plain_end by assumption.
    cbn [name bus telemetry_supported app].
    repeat (rewrite name_after_app || rewrite name_after_cons).
    reflexivity.
  - rewrite <- !app_assoc, adf_scan_plain by assumption.
    rewrite <- !app_comm_cons, adf_scan_bsf by assumption.
    rewrite <- !app_assoc, adf_scan_plain by assumption.
    rewrite <- !app_comm_cons, adf_scan_type.
    rewrite adf_scan_plain, adf_scan_state_up by assumption.
    rewrite adf_scan_plain_end by assumption.
    cbn [name bus telemetry_supported app].
    repeat (rewrite name_after_app || rewrite name_after_cons).
    reflexivity.
Qed.

(** The status line that [adf_ctl status] prints for one device. *)
Lemma up_candidate_is_recorded_witness :
  build_devices
    ((["qat_dev0"; "-"] ++ "type:" :: "4xxx," :: ["inst_id:"; "0,"]
        ++ "bsf:" :: "0000:6b:00.0," :: ["#accel:"; "1"])
       ++ "state:" :: "up" :: [])
  = Ok [(Some "qat_dev0", Some "6b")].
Proof.
  apply (up_candidate_is_recorded ["qat_dev0"; "-"] ["inst_id:"; "0,"]
           ["#accel:"; "1"] [] "0000:6b:00.0,").
  - repeat constructor.
  - repeat constructor.
  - repeat constructor.
  - constructor.
  - reflexivity.
  - left. reflexivity.
Defined.

(** C8. A [state:] token followed by anything but [up] adds no record,
    whatever the candidate (telemetry supported or not): the loop goes
    on with the inventory as it was and the candidate reset.  So a
    stream where no [state:] token is followed by [up] leaves the
    inventory as it was; the scan ends without exception when the last
    token is no key. *)
Theorem no_record_unless_up :
  (forall v rest c devs,
      v <> "up" ->
      adf_scan ("state:" :: v :: rest) c devs
        = adf_scan (v :: rest) no_candidate devs)
  /\ (forall toks c devs,
        never_up toks ->
        (adf_scan toks c devs = Ok devs
         \/ adf_scan toks c devs = Raise IndexError)
        /\ (from_option plain true (last toks) = true ->
            adf_scan toks c devs = Ok devs)).
Proof.
  split.
  { intros v rest c devs Hv. apply adf_scan_cons.
    unfold adf_token. cbn [head].
    change (str_in "qat_dev" "state:") with false.
    change (String.eqb "type:" "state:") with false.
    change (String.eqb "bsf:" "state:") with false.
    change (String.eqb "state:" "state:") with true.
    cbv iota. apply not_eq_sym, String.eqb_neq in Hv. now rewrite Hv. }
  intros toks. induction toks as [|t toks IH]; intros c devs Hup.
  { simpl. auto. }
  cbn [adf_scan].
  destruct (adf_token_keeps t (head toks) c devs (never_up_head _ _ Hup))
    as [[c' ->] | (Hnone & Hplain & ->)].
  - destruct (IH c' devs (never_up_tail _ _ Hup)) as [IH1 IH2].
    split; [exact IH1|]. intros Hlast. apply IH2.
    destruct toks as [|t' toks]; [reflexivity|].
    now rewrite last_cons_cons in Hlast.
  - split; [auto|]. intros Hlast.
    destruct toks as [|t' toks]; [|discriminate].
    simpl in Hlast. congruence.
Qed.

Lemma no_record_unless_up_witness :
  build_devices
    ["qat_dev0"; "-"; "type:"; "4xxx,"; "bsf:"; "0000:6b:00.0,"; "state:";
     "down"] = Ok [].
Proof.
  apply (proj2 no_record_unless_up); [|reflexivity].
  intros i Hi.
  do 8 (destruct i as [|i]; [try discriminate Hi; discriminate|]).
  discriminate Hi.
Defined.

End InventoryClaims.

(** ** The sorted paths *)

Section Sorting.

Implicit Types (x : string) (xs ys : list string)
  (l : list (string * string)).

Lemma sort_key_raises x e : sort_key x = Raise e -> e = IndexError.
Proof.
  unfold sort_key. destruct (str_split ":" x !! 1%nat); congruence.
Qed.

Lemma keyed_raises xs e : keyed xs = Raise e -> e = IndexError.
Proof.
  induction xs as [|x xs IH]; simpl; [discriminate|].
  destruct (sort_key x) as [k|e'] eqn:Hk; simpl.
  - destruct (keyed xs) as [ks|e'']; simpl; [discriminate|].
    intros [= <-]. now apply IH.
  - intros [= <-]. now apply sort_key_raises in Hk.
Qed.

Lemma keyed_snd xs l : keyed xs = Ok l -> map snd l = xs.
Proof.
  revert l. induction xs as [|x xs IH]; simpl; intros l.
  - now intros [= <-].
  - destruct (sort_key x) as [k|]; simpl; [|discriminate].
    destruct (keyed xs) as [ks|]; simpl; [|discriminate].
    intros [= <-]. simpl. now rewrite IH.
Qed.

Lemma same_outcome_trans {A : Type} (R : A -> A -> Prop) (r1 r2 r3 : result A) :
  (forall a b c, R a b -> R b c -> R a c) ->
  same_outcome R r1 r2 -> same_outcome R r2 r3 -> same_outcome R r1 r3.
Proof.
  intros HR. destruct r1, r2, r3; simpl; try tauto; try congruence.
  apply HR.
Qed.

Lemma same_outcome_bind {A B : Type} (R : A -> A -> Prop) (Q : B -> B -> Prop)
    (r1 r2 : result A) (k1 k2 : A -> result B) :
  same_outcome R r1 r2 ->
  (forall a1 a2, R a1 a2 -> same_outcome Q (k1 a1) (k2 a2)) ->
  same_outcome Q (rbind r1 k1) (rbind r2 k2).
Proof. destruct r1, r2; simpl; auto; tauto. Qed.

(** The keys are computed for the same elements, in whatever order:
    either one of them has no second field, or none. *)
Lemma keyed_Permutation xs ys :
  Permutation xs ys -> same_outcome Permutation (keyed xs) (keyed ys).
Proof.
  induction 1 as [|x xs ys _ IH|x y xs|xs ys zs _ IH1 _ IH2].
  - simpl. constructor.
  - simpl. destruct (sort_key x) as [k|e]; simpl; [|reflexivity].
    destruct (keyed xs), (keyed ys); simpl in *; auto.
  - simpl.
    destruct (sort_key x) as [kx|ex] eqn:Hx, (sort_key y) as [ky|ey] eqn:Hy;
      simpl; try apply sort_key_raises in Hx; try apply sort_key_raises in Hy;
      subst.
    + destruct (keyed xs); simpl; [constructor | reflexivity].
    + reflexivity.
    + destruct (keyed xs) as [|e] eqn:He; simpl; [reflexivity|].
      now apply keyed_raises in He.
    + reflexivity.
  - eapply same_outcome_trans; eauto. intros a b c. apply Permutation_trans.
Qed.

Lemma insert_keyed_Permutation kx l : Permutation (insert_keyed kx l) (kx :: l).
Proof.
  induction l as [|ky l IH]; simpl; [reflexivity|].
  destruct (String.ltb (fst ky) (fst kx)); [|reflexivity].
  rewrite IH. constructor.
Qed.

Lemma sort_keyed_Permutation l : Permutation (sort_keyed l) l.
Proof.
  induction l as [|kx l IH]; simpl; [reflexivity|].
  unfold sort_keyed in *. simpl.
  rewrite insert_keyed_Permutation. now constructor.
Qed.

(** [sorted] returns a rearrangement of its argument. *)
Lemma sorted_by_key_Permutation xs ys :
  sorted_by_key xs = Ok ys -> Permutation ys xs.
Proof.
  unfold sorted_by_key. intros H.
  apply rbind_Ok in H as (l & Hl & [= <-]).
  rewrite sort_keyed_Permutation. now rewrite (keyed_snd _ _ Hl).
Qed.

Lemma sorted_by_key_same xs ys :
  Permutation xs ys ->
  same_outcome Permutation (sorted_by_key xs) (sorted_by_key ys).
Proof.
  intros H. unfold sorted_by_key.
  apply (same_outcome_bind Permutation); [now apply keyed_Permutation|].
  intros l1 l2 Hl. simpl.
  rewrite !sort_keyed_Permutation. now apply Permutation_map.
Qed.

End Sorting.

(** ** The correlation *)

Section Correlation.

Implicit Types (path : string) (ps : list string) (d : device)
  (devs : list device).

(** The inner loop: one copy of [path] for each device that matches, or
    [TypeError] at the first device without a bus identifier. *)
Lemma match_devices_spec path devs :
  match_devices path devs =
    if forallb has_bus devs then Ok (replicate (matches path devs) path)
    else Raise TypeError.
Proof.
  induction devs as [|[nm [b|]] devs IH]; [reflexivity| |reflexivity].
  cbn [match_devices snd forallb has_bus andb]. rewrite IH.
  destruct (forallb has_bus devs); [|reflexivity].
  unfold matches, bus_in. cbn [rbind List.filter snd].
  now destruct (str_in b path).
Qed.

Lemma correlate_spec ps devs :
  correlate ps devs =
    match ps with
    | [] => Ok []
    | _ :: _ =>
        if forallb has_bus devs
        then Ok (flat_map (fun p => replicate (matches p devs) p) ps)
        else Raise TypeError
    end.
Proof.
  induction ps as [|p ps IH]; [reflexivity|].
  cbn [correlate]. rewrite match_devices_spec, IH.
  destruct (forallb has_bus devs); [|reflexivity].
  destruct ps; simpl; [|reflexivity].
  now rewrite app_nil_r.
Qed.

Lemma correlate_Permutation ps1 ps2 devs :
  Permutation ps1 ps2 ->
  same_outcome Permutation (correlate ps1 devs) (correlate ps2 devs).
Proof.
  intros H. rewrite !correlate_spec.
  destruct ps1 as [|p1 ps1], ps2 as [|p2 ps2].
  - simpl. constructor.
  - now apply Permutation_nil in H.
  - symmetry in H. now apply Permutation_nil in H.
  - destruct (forallb has_bus devs); simpl; [|reflexivity].
    now apply (Permutation_flat_map
                 (fun p => replicate (matches p devs) p)) in H.
Qed.

(** The commands of the enable loop: up to the first one that fails,
    and that one. *)
Lemma enable_loop_stops check_output pre p post :
  Forall (fun q => check_output (enable_command q) = true) pre ->
  check_output (enable_command p) = false ->
  enable_loop check_output (pre ++ p :: post) =
    map enable_command (pre ++ [p]).
Proof.
  intros Hpre Hp. induction Hpre as [|q pre Hq _ IH]; simpl.
  - now rewrite Hp.
  - now rewrite Hq, IH.
Qed.

(** The globals that a discovery leaves do not depend on the control
    writes. *)
Lemma EnableTelemetry_outcome adf find check1 check2 :
  outcome (EnableTelemetry adf find check1) =
    outcome (EnableTelemetry adf find check2).
Proof.
  unfold EnableTelemetry.
  destruct (rbind (sorted_by_key find) _) as [g|e]; [|reflexivity].
  destruct (set_paths g); reflexivity.
Qed.

Lemma EnableTelemetry_commands adf find check_output g :
  outcome (EnableTelemetry adf find check_output) = Ok g ->
  commands (EnableTelemetry adf find check_output) =
    enable_loop check_output (set_paths g).
Proof.
  unfold EnableTelemetry.
  destruct (rbind (sorted_by_key find) _) as [g'|e]; [|discriminate].
  destruct (set_paths g') eqn:Hsp; simpl; [discriminate|].
  intros [= <-]. now rewrite Hsp.
Qed.

End Correlation.

Section CorrelationClaims.

Implicit Types (path : string) (ps : list string) (devs : list device).

(** C9. For every device list, two lists of paths that are permutations
    of each other give the same endpoints up to their order (the same
    elements with the same multiplicities, hence the same set), or the
    same exception; so does the correlation together with the sort that
    goes before it. *)
Theorem correlation_ignores_path_order devs ps1 ps2 :
  Permutation ps1 ps2 ->
  same_outcome Permutation (correlate ps1 devs) (correlate ps2 devs)
  /\ same_outcome Permutation
       (let* output_telem := sorted_by_key ps1 in correlate output_telem devs)
       (let* output_telem := sorted_by_key ps2 in correlate output_telem devs).
Proof.
  intros H. split.
  - now apply correlate_Permutation.
  - apply (same_outcome_bind Permutation); [now apply sorted_by_key_same|].
    intros s1 s2. apply correlate_Permutation.
Qed.

Lemma correlation_ignores_path_order_witness :
  same_outcome Permutation
    (correlate [telemetry_6b; telemetry_70]
       [(Some "qat_dev0", Some "6b"); (Some "qat_dev1", Some "70")])
    (correlate [telemetry_70; telemetry_6b]
       [(Some "qat_dev0", Some "6b"); (Some "qat_dev1", Some "70")]).
Proof.
  apply correlation_ignores_path_order. apply perm_swap.
Defined.

(** C6 (the code at the failing input). A candidate with the supported
    type and [state: up] but no [bsf:] token is recorded with the bus
    identifier [None]; the discovery then never completes: it raises
    [TypeError] at [None in path] when there is a path, and leaves with
    [quit()] when there is none. *)
Theorem candidate_without_bsf pre post tail body :
  Forall (fun t => plain t = true) pre ->
  Forall (fun t => plain t = true) post ->
  Forall (fun t => plain t = true) tail ->
  body = pre ++ "type:" :: "4xxx," :: post ->
  build_devices (body ++ "state:" :: "up" :: tail)
    = Ok [(name_after None body, None)]
  /\ forall find check_output,
      outcome (EnableTelemetry (body ++ "state:" :: "up" :: tail) find
                 check_output) =
        match sorted_by_key find with
        | Raise e => Raise e
        | Ok [] => Raise (SystemExit None)
        | Ok (_ :: _) => Raise TypeError
        end.
Proof.
  intros Hpre Hpost Htail ->.
  assert (Hb : build_devices
                 ((pre ++ "type:" :: "4xxx," :: post)
                    ++ "state:" :: "up" :: tail)
               = Ok [(name_after None (pre ++ "type:" :: "4xxx," :: post),
                      None)]).
  { unfold build_devices.
    rewrite <- !app_assoc, adf_scan_plain by assumption.
    rewrite <- !app_comm_cons, adf_scan_type.
    rewrite adf_scan_plain, adf_scan_state_up by assumption.
    rewrite adf_scan_plain_end by assumption.
    cbn [name bus telemetry_supported app].
    repeat (rewrite name_after_app || rewrite name_after_cons).
    reflexivity. }
  split; [exact Hb|]. intros find check_output.
  unfold EnableTelemetry. rewrite Hb.
  destruct (sorted_by_key find) as [[|p ps]|e]; reflexivity.
Qed.

Lemma candidate_without_bsf_witness :
  build_devices status_without_bsf = Ok [(Some "qat_dev0", None)]
  /\ outcome (EnableTelemetry status_without_bsf [telemetry_6b]
                (fun _ => true)) = Raise TypeError.
Proof.
  destruct (candidate_without_bsf ["qat_dev0"; "-"] [] []
              ["qat_dev0"; "-"; "type:"; "4xxx,"])
    as [Hb He]; [repeat constructor | constructor | constructor
                | reflexivity |].
  split; [exact Hb | exact (He [telemetry_6b] (fun _ => true))].
Defined.

(** C4 (as amended). When the control write of an endpoint fails, the
    control writes of the endpoints before it and its own are the only
    ones attempted: none is attempted for the endpoints after it.  The
    discovery still completes, with the same endpoints (the failing one
    among them) as with any other outcome of the control writes. *)
Theorem enable_failure_ends_enabling adf find check_output g pre p post :
  outcome (EnableTelemetry adf find check_output) = Ok g ->
  set_paths g = pre ++ p :: post ->
  Forall (fun q => check_output (enable_command q) = true) pre ->
  check_output (enable_command p) = false ->
  commands (EnableTelemetry adf find check_output)
    = map enable_command (pre ++ [p])
  /\ forall check_output',
      outcome (EnableTelemetry adf find check_output') = Ok g.
Proof.
  intros Hg Hsp Hpre Hp. split.
  - rewrite (EnableTelemetry_commands adf find check_output g Hg), Hsp.
    now apply enable_loop_stops.
  - intros check_output'.
    now rewrite (EnableTelemetry_outcome adf find check_output' check_output).
Qed.

End CorrelationClaims.

(** ** Division and rounding *)

Section Rounding.

Local Open Scope Z_scope.

Lemma round_half_even_nearest p q :
  0 < q -> nearest p q (round_half_even p q).
Proof.
  intros Hq. unfold nearest, round_half_even.
  pose proof (Z.div_mod p q ltac:(lia)) as Hdm.
  pose proof (Z.mod_pos_bound p q Hq) as Hm.
  destruct (Z.ltb_spec (2 * (p mod q)) q);
    [|destruct (Z.ltb_spec q (2 * (p mod q)));
      [|destruct (Z.even (p / q))]]; nia.
Qed.

(** Rounding [s / n] to a multiple of [1 / t] first, and to an integer
    then, gives an integer nearest to [s / n] as long as [n < t]. *)
Lemma round_twice_nearest s n t :
  0 < n < t ->
  nearest s n (round_half_even (round_half_even (s * t) n) t).
Proof.
  intros Hn.
  pose proof (round_half_even_nearest (s * t) n ltac:(lia)) as H1.
  pose proof (round_half_even_nearest (round_half_even (s * t) n) t
                ltac:(lia)) as H2.
  set (m := round_half_even (s * t) n) in *.
  set (r := round_half_even m t) in *.
  unfold nearest in *. nia.
Qed.

(** Below [2 ^ 49] the quotient by a small [n] has at least four bits
    after the binary point. *)
Lemma true_divide_small s n :
  0 < s < 2 ^ 49 -> 0 < n < 16 ->
  exists sc, 4 <= sc
    /\ true_divide s n = Ok (Float (round_half_even (s * 2 ^ sc) n) sc).
Proof.
  intros Hs Hn. unfold true_divide.
  pose proof (Z.log2_nonneg n) as Hln.
  assert (Hls : Z.log2 s < 49) by (apply Z.log2_lt_pow2; lia).
  set (k := Z.log2 s - Z.log2 n).
  set (e := if s * 2 ^ Z.max 0 (- k) <? n * 2 ^ Z.max 0 k then k - 1 else k).
  assert (He : e <= 48) by (subst e k; destruct (_ <? _); lia).
  exists (52 - e). split; [lia|].
  destruct (Z.leb_spec 0 (52 - e)); [|lia].
  destruct (Z.leb_spec 1024 e); [lia|].
  destruct (Z.eqb_spec e 1023); [lia|]. reflexivity.
Qed.

Lemma aggregate_spec s n r :
  0 < n < 16 ->
  aggregate s n = Ok r ->
  (s <= 0 -> r = s) /\ (0 < s < 2 ^ 49 -> nearest s n r).
Proof.
  intros Hn. unfold aggregate.
  destruct (Z.ltb_spec 0 s) as [Hs|Hs].
  - intros H. split; [lia|]. intros Hs'.
    destruct (true_divide_small s n Hs' Hn) as (sc & Hsc & Hd).
    rewrite Hd in H. simpl in H. injection H as <-.
    unfold py_round. cbn [scale mant].
    destruct (Z.ltb_spec 0 sc); [|lia].
    apply round_twice_nearest.
    assert (2 ^ 4 <= 2 ^ sc) by (apply Z.pow_le_mono_r; lia). lia.
  - intros [= <-]. split; [reflexivity | lia].
Qed.

(** Below [2 ^ 49] the division raises nothing. *)
Lemma aggregate_total s n :
  0 < n < 16 -> s < 2 ^ 49 -> exists r, aggregate s n = Ok r.
Proof.
  intros Hn Hs. unfold aggregate.
  destruct (Z.ltb_spec 0 s) as [Hs'|Hs']; [|eauto].
  destruct (true_divide_small s n ltac:(lia) Hn) as (sc & _ & ->).
  simpl. eauto.
Qed.

End Rounding.

(** ** The counter dump *)

Section Dump.

Implicit Types (output : list string) (env : locals) (var key : string).

Ltac chain_cases H :=
  cbv [counter_variables In] in H;
  repeat (destruct H as [H|H]; [inversion H; subst; clear H|]);
  try contradiction.

(** The keys of the chain are distinct: each is found at its own
    branch. *)
Lemma variable_of_chain key var :
  In (key, var) counter_variables ->
  variable_of key counter_variables = Some var.
Proof. intros H. chain_cases H; reflexivity. Qed.

Lemma variable_of_In t var (chain : list (string * string)) :
  variable_of t chain = Some var -> In (t, var) chain.
Proof.
  induction chain as [|[k v] chain IH]; simpl; [discriminate|].
  destruct (String.eqb_spec k t) as [->|_]; [intros [= ->]; now left|].
  intros H. right. now apply IH.
Qed.

Arguments variable_of : simpl never.

(** So are the variables. *)
Lemma chain_variable_key key1 key2 var :
  In (key1, var) counter_variables -> In (key2, var) counter_variables ->
  key1 = key2.
Proof.
  intros H1 H2. chain_cases H1; chain_cases H2; reflexivity.
Qed.

Lemma assigned_In output var v :
  assigned output var = Some v ->
  exists key, In key output /\ In (key, var) counter_variables.
Proof.
  induction output as [|t rest IH]; cbn [assigned]; [discriminate|].
  destruct (assigned rest var) as [v'|].
  - intros [= ->]. destruct IH as (key & Hk & Hv); [reflexivity|].
    exists key. split; [now right | assumption].
  - destruct (variable_of t counter_variables) as [var'|] eqn:Ht;
      [|destruct rest; discriminate].
    destruct rest as [|v' rest']; [discriminate|].
    destruct (String.eqb_spec var' var) as [->|_]; [|discriminate].
    intros _. exists t. split; [now left|]. now apply variable_of_In.
Qed.

(** A variable whose key the dump does not have is not assigned. *)
Lemma assigned_missing output key var :
  In (key, var) counter_variables -> ~ In key output ->
  assigned output var = None.
Proof.
  intros Hkv Hout. destruct (assigned output var) as [v|] eqn:Ha; [|reflexivity].
  apply assigned_In in Ha as (key' & Hin & Hkv').
  now rewrite (chain_variable_key _ _ _ Hkv Hkv') in Hout.
Qed.

(** The locals after the loop: the value assigned last, or the value
    the variable had before the loop. *)
Lemma parse_dump_lookup output env env' var :
  parse_dump output env = Ok env' ->
  env' !! var = match assigned output var with
                | Some v => Some v
                | None => env !! var
                end.
Proof.
  revert env. induction output as [|t rest IH]; intros env;
    cbn [parse_dump assigned].
  - now intros [= <-].
  - destruct (variable_of t counter_variables) as [var'|].
    + destruct rest as [|v rest']; [discriminate|].
      intros H. rewrite (IH _ H).
      destruct (assigned (v :: rest') var); [reflexivity|].
      destruct (String.eqb_spec var' var) as [->|Hne].
      * now rewrite lookup_insert_eq.
      * now rewrite lookup_insert_ne.
    + intros H. rewrite (IH _ H).
      now destruct (assigned rest var), rest.
Qed.

(** Whether the loop raises does not depend on the locals. *)
Lemma parse_dump_raises output env1 env2 :
  same_outcome (fun _ _ => True) (parse_dump output env1)
    (parse_dump output env2).
Proof.
  revert env1 env2. induction output as [|t rest IH]; intros env1 env2;
    cbn [parse_dump].
  - exact I.
  - destruct (variable_of t counter_variables) as [var'|]; [|apply IH].
    destruct rest; [reflexivity | apply IH].
Qed.

(** A key of the dump is followed by a value when the loop ends
    normally: its variable is assigned. *)
Lemma parse_dump_assigns output env env' key var :
  parse_dump output env = Ok env' ->
  In key output -> In (key, var) counter_variables ->
  is_Some (assigned output var).
Proof.
  intros Hp Hin Hkv. apply variable_of_chain in Hkv.
  revert env Hp. induction output as [|t rest IH]; intros env Hp;
    [destruct Hin|].
  cbn [parse_dump assigned] in Hp |- *.
  destruct Hin as [->|Hin].
  - rewrite Hkv in *. destruct rest as [|v rest']; [discriminate|].
    destruct (assigned (v :: rest') var); [eauto|].
    rewrite String.eqb_refl. eauto.
  - assert (H : is_Some (assigned rest var)).
    { destruct (variable_of t counter_variables).
      - destruct rest; [discriminate | eapply IH; eauto].
      - eapply IH; eauto. }
    destruct H as [v ->]. eauto.
Qed.

(** After a complete dump the counter values are those of the dump. *)
Lemma parse_dump_complete output env1 env2 env1' env2' :
  complete output ->
  parse_dump output env1 = Ok env1' -> parse_dump output env2 = Ok env2' ->
  agree env1' env2'.
Proof.
  intros Hc H1 H2 var Hvar.
  apply in_map_iff in Hvar as ([key var'] & Heq & Hkv). simpl in Heq. subst var'.
  rewrite (parse_dump_lookup _ _ _ var H1), (parse_dump_lookup _ _ _ var H2).
  destruct (parse_dump_assigns _ _ _ key var H1 (Hc _ _ Hkv) Hkv) as [v ->].
  reflexivity.
Qed.

(** The loop keeps the agreement of two sets of locals. *)
Lemma parse_dump_agree output env1 env2 env1' env2' :
  agree env1 env2 ->
  parse_dump output env1 = Ok env1' -> parse_dump output env2 = Ok env2' ->
  agree env1' env2'.
Proof.
  intros Ha H1 H2 var Hvar.
  rewrite (parse_dump_lookup _ _ _ var H1), (parse_dump_lookup _ _ _ var H2).
  destruct (assigned output var); [reflexivity | now apply Ha].
Qed.

End Dump.

(** ** The aggregates *)

Section Aggregates.

Implicit Types (env : locals) (var : string) (vars : list string).

Local Open Scope Z_scope.

Lemma int_of_Ok env var z : int_of env var = Ok z <-> holds env var z.
Proof.
  unfold int_of, read, holds. split.
  - destruct (env !! var) as [tok|]; simpl; [|discriminate].
    destruct (py_int tok) eqn:Hi; [|discriminate].
    intros [= <-]. eauto.
  - intros (tok & -> & Hi). simpl. now rewrite Hi.
Qed.

Lemma sum_of_Ok env vars acc s :
  sum_of env vars acc = Ok s <->
  exists zs, Forall2 (holds env) vars zs /\ s = acc + sum_Z zs.
Proof.
  revert acc. induction vars as [|var vars IH]; intros acc; cbn [sum_of].
  - split.
    + intros [= <-]. exists []. split; [constructor | simpl; lia].
    + intros (zs & Hz & ->). inversion Hz. simpl. f_equal. lia.
  - split.
    + intros H. apply rbind_Ok in H as (z & Hz & H).
      apply IH in H as (zs & Hzs & ->). apply int_of_Ok in Hz.
      exists (z :: zs). split; [now constructor | simpl; lia].
    + intros (zs & Hz & ->). inversion Hz as [|? z ? zs' Hv Hzs]; subst.
      apply int_of_Ok in Hv. rewrite Hv. simpl.
      apply IH. exists zs'. split; [assumption | simpl; lia].
Qed.

(** A category whose sub-units hold integers of a sum below [2 ^ 49]
    raises nothing. *)
Lemma utilization_total env vars n zs :
  0 < n < 16 -> Forall2 (holds env) vars zs -> sum_Z zs < 2 ^ 49 ->
  exists r, utilization env vars n = Ok r.
Proof.
  intros Hn Hzs Hs. unfold utilization.
  assert (H : sum_of env vars 0 = Ok (sum_Z zs)).
  { apply sum_of_Ok. exists zs. split; [assumption | lia]. }
  rewrite H. cbn [rbind]. now apply aggregate_total.
Qed.

(** One category: the sum of its sub-units, left as it is when it is
    not positive, divided and rounded otherwise. *)
Lemma utilization_spec env vars n r :
  0 < n < 16 ->
  utilization env vars n = Ok r ->
  exists zs, Forall2 (holds env) vars zs
    /\ (sum_Z zs <= 0 -> r = sum_Z zs)
    /\ (0 < sum_Z zs < 2 ^ 49 -> nearest (sum_Z zs) n r).
Proof.
  intros Hn H. unfold utilization in H.
  apply rbind_Ok in H as (s & Hs & H).
  apply sum_of_Ok in Hs as (zs & Hzs & ->). rewrite Z.add_0_l in H.
  exists zs. split; [assumption|]. now apply aggregate_spec.
Qed.

Lemma compute_aggregates_Ok env a :
  compute_aggregates env = Ok a ->
  utilization env decompression_vars 3 = Ok (decompress a)
  /\ utilization env pke_vars 6 = Ok (pke a)
  /\ utilization env cph_vars 4 = Ok (cph a)
  /\ utilization env ath_vars 4 = Ok (ath a)
  /\ utilization env ucs_vars 2 = Ok (usc a)
  /\ int_of env "latency" = Ok (latency_value a).
Proof.
  unfold compute_aggregates. intros H.
  apply rbind_Ok in H as (d & Hd & H). apply rbind_Ok in H as (p & Hp & H).
  apply rbind_Ok in H as (c & Hc & H). apply rbind_Ok in H as (t & Ht & H).
  apply rbind_Ok in H as (u & Hu & H). apply rbind_Ok in H as (l & Hl & H).
  injection H as <-. simpl. auto 6.
Qed.

Lemma take_snapshot_Ok env a s :
  take_snapshot env a = Ok s ->
  env !! "compression" = Some (compression s)
  /\ env !! "latency" = Some (latency s)
  /\ decompress_utilization s = decompress a
  /\ pke_utilization s = pke a
  /\ cph_utilization s = cph a
  /\ ath_utilization s = ath a
  /\ usc_utilization s = usc a.
Proof.
  unfold take_snapshot, read. intros H.
  destruct (env !! "compression") as [c|]; [|discriminate].
  destruct (env !! "latency") as [l|]; [|discriminate].
  simpl in H. injection H as <-. simpl. auto 8.
Qed.

(** The aggregates read the counter variables only. *)
Lemma read_agree env1 env2 var :
  agree env1 env2 -> In var counter_locals -> read env1 var = read env2 var.
Proof. intros Ha Hv. unfold read. now rewrite (Ha var Hv). Qed.

Lemma sum_of_agree env1 env2 vars acc :
  agree env1 env2 -> Forall (fun var => In var counter_locals) vars ->
  sum_of env1 vars acc = sum_of env2 vars acc.
Proof.
  intros Ha Hv. revert acc. induction Hv as [|var vars Hvar _ IH]; intros acc.
  - reflexivity.
  - cbn [sum_of]. unfold int_of. rewrite (read_agree _ _ _ Ha Hvar).
    destruct (read env2 var) as [tok|]; simpl; [|reflexivity].
    destruct (py_int tok); [apply IH | reflexivity].
Qed.

Lemma counter_local_In var :
  existsb (String.eqb var) counter_locals = true -> In var counter_locals.
Proof.
  intros H. apply existsb_exists in H as (v & Hv & Heq).
  apply String.eqb_eq in Heq. now subst.
Qed.

Lemma counter_locals_Forall vars :
  forallb (fun var => existsb (String.eqb var) counter_locals) vars = true ->
  Forall (fun var => In var counter_locals) vars.
Proof.
  induction vars as [|var vars IH]; cbn [forallb]; [constructor|].
  intros H. apply andb_true_iff in H as [Hv Hvs].
  constructor; [now apply counter_local_In | now apply IH].
Qed.

Lemma utilization_agree env1 env2 vars n :
  agree env1 env2 ->
  forallb (fun var => existsb (String.eqb var) counter_locals) vars = true ->
  utilization env1 vars n = utilization env2 vars n.
Proof.
  intros Ha Hv. unfold utilization.
  now rewrite (sum_of_agree env1 env2 vars 0 Ha (counter_locals_Forall _ Hv)).
Qed.

Lemma compute_aggregates_agree env1 env2 :
  agree env1 env2 -> compute_aggregates env1 = compute_aggregates env2.
Proof.
  intros Ha. unfold compute_aggregates, int_of.
  rewrite (utilization_agree env1 env2 decompression_vars) by easy.
  rewrite (utilization_agree env1 env2 pke_vars) by easy.
  rewrite (utilization_agree env1 env2 cph_vars) by easy.
  rewrite (utilization_agree env1 env2 ath_vars) by easy.
  rewrite (utilization_agree env1 env2 ucs_vars) by easy.
  rewrite (read_agree env1 env2 "latency" Ha) by now apply counter_local_In.
  reflexivity.
Qed.

Lemma take_snapshot_agree env1 env2 a :
  agree env1 env2 -> take_snapshot env1 a = take_snapshot env2 a.
Proof.
  intros Ha. unfold take_snapshot.
  rewrite (read_agree env1 env2 "compression" Ha)
    by now apply counter_local_In.
  rewrite (read_agree env1 env2 "latency" Ha) by now apply counter_local_In.
  reflexivity.
Qed.

(** The aggregates and the snapshot read every counter variable. *)
Lemma snapshot_reads_all env a s var :
  compute_aggregates env = Ok a -> take_snapshot env a = Ok s ->
  In var counter_locals -> is_Some (env !! var).
Proof.
  intros Hc Ht Hv.
  apply compute_aggregates_Ok in Hc as (Hd & Hp & Hc & Ha & Hu & Hl).
  apply take_snapshot_Ok in Ht as (Hcomp & Hlat & _).
  unfold utilization in *.
  apply rbind_Ok in Hd as (? & Hd & _). apply sum_of_Ok in Hd as (? & Hd & _).
  apply rbind_Ok in Hp as (? & Hp & _). apply sum_of_Ok in Hp as (? & Hp & _).
  apply rbind_Ok in Hc as (? & Hc & _). apply sum_of_Ok in Hc as (? & Hc & _).
  apply rbind_Ok in Ha as (? & Ha & _). apply sum_of_Ok in Ha as (? & Ha & _).
  apply rbind_Ok in Hu as (? & Hu & _). apply sum_of_Ok in Hu as (? & Hu & _).
  unfold decompression_vars, pke_vars, cph_vars, ath_vars, ucs_vars in *.
  repeat match goal with
         | H : Forall2 _ (_ :: _) _ |- _ =>
             let Hh := fresh "Hh" in
             inversion H as [|? ? ? ? Hh ?]; subst; clear H;
             destruct Hh as (? & Hh & _)
         end.
  cbv [counter_locals counter_variables map snd In] in Hv.
  repeat (destruct Hv as [<-|Hv]; [eauto|]). contradiction.
Qed.

End Aggregates.

(** ** The rows *)

Section Rows.

Implicit Types (popen : string -> list string) (sp : list string)
  (env : locals) (d : device) (ds : list device) (count : nat)
  (cs : list call).

(** A body that ends normally has written the row of [devices[count]]
    with the counters of [set_paths[count]]. *)
Lemma pbar_device_Ok popen sp env count d cs env' :
  pbar_device popen sp env count d = (cs, Ok env') ->
  exists path name s,
    sp !! count = Some path /\ fst d = Some name
    /\ parse_dump (popen (device_data_command path)) env = Ok env'
    /\ snapshot_of env' = Ok s
    /\ In (addstr (4 + count) 10 (row_text name s)) cs.
Proof.
  unfold pbar_device, snapshot_of.
  destruct (sp !! count) as [path|]; [|discriminate].
  destruct (parse_dump _ env) as [env1|] eqn:Hp; [|discriminate].
  cbn [rbind].
  destruct (compute_aggregates env1) as [a|] eqn:Ha; [|discriminate].
  cbn [rbind].
  destruct (fst d) as [name|]; [|discriminate].
  destruct (take_snapshot env1 a) as [s|] eqn:Hs; [|discriminate].
  intros [= <- <-]. exists path, name, s.
  split; [reflexivity|]. split; [reflexivity|]. split; [exact Hp|].
  split; [now rewrite Ha|]. apply in_or_app. right. now left.
Qed.

Lemma pbar_devices_app popen sp ds1 ds2 count env :
  pbar_devices popen sp (ds1 ++ ds2) count env =
    match pbar_devices popen sp ds1 count env with
    | (cs1, Ok (env1, count1)) =>
        let (cs2, r) := pbar_devices popen sp ds2 count1 env1 in
        (cs1 ++ cs2, r)
    | (cs1, Raise e) => (cs1, Raise e)
    end.
Proof.
  revert count env. induction ds1 as [|d ds1 IH]; intros count env.
  - cbn [app pbar_devices]. now destruct (pbar_devices popen sp ds2 count env).
  - cbn [app pbar_devices].
    destruct (pbar_device popen sp env count d) as [cs [env'|e]];
      [|reflexivity].
    rewrite IH.
    destruct (pbar_devices popen sp ds1 (S count) env') as [cs1 [[env1 c1]|e]];
      [|reflexivity].
    destruct (pbar_devices popen sp ds2 c1 env1) as [cs2 r].
    now rewrite app_assoc.
Qed.

(** The loop pairs devices and endpoints by their position. *)
Lemma pbar_devices_rows popen sp ds count env cs env' n :
  pbar_devices popen sp ds count env = (cs, Ok (env', n)) ->
  forall (i : nat) d, ds !! i = Some d ->
    exists path name env_i s,
      sp !! (count + i)%nat = Some path /\ fst d = Some name
      /\ (let* e := parse_dump (popen (device_data_command path)) env_i in
          snapshot_of e) = Ok s
      /\ In (addstr (4 + (count + i)) 10 (row_text name s)) cs.
Proof.
  revert count env cs. induction ds as [|d0 ds IH]; intros count env cs H i d Hi.
  - discriminate.
  - cbn [pbar_devices] in H.
    destruct (pbar_device popen sp env count d0) as [cs0 [env0|e]] eqn:Hd;
      [|discriminate].
    destruct (pbar_devices popen sp ds (S count) env0) as [cs1 r] eqn:Hds.
    injection H as <- ->.
    destruct i as [|i].
    + injection Hi as <-.
      apply pbar_device_Ok in Hd as (path & name & s & Hp & Hn & He & Hs & Hin).
      exists path, name, env, s. rewrite Nat.add_0_r, He. cbn [rbind].
      repeat split; try assumption. apply in_or_app. now left.
    + destruct (IH _ _ _ Hds i d Hi) as (path & name & env_i & s & Hp & Hn & Hs & Hin).
      exists path, name, env_i, s. rewrite Nat.add_succ_r.
      repeat split; try assumption. apply in_or_app. now right.
Qed.

(** The body depends on the locals through the counter values that the
    parsing loop leaves. *)
Lemma pbar_device_same popen sp env1 env2 count d :
  (forall path env1' env2',
     sp !! count = Some path ->
     parse_dump (popen (device_data_command path)) env1 = Ok env1' ->
     parse_dump (popen (device_data_command path)) env2 = Ok env2' ->
     agree env1' env2') ->
  fst (pbar_device popen sp env1 count d)
    = fst (pbar_device popen sp env2 count d)
  /\ same_outcome agree (snd (pbar_device popen sp env1 count d))
       (snd (pbar_device popen sp env2 count d)).
Proof.
  intros Hagree. unfold pbar_device.
  destruct (sp !! count) as [path|]; [|now split].
  specialize (Hagree path).
  pose proof (parse_dump_raises (popen (device_data_command path)) env1 env2)
    as Hr.
  destruct (parse_dump _ env1) as [env1'|e1], (parse_dump _ env2) as [env2'|e2];
    simpl in Hr; try contradiction; [|subst; now split].
  specialize (Hagree env1' env2' eq_refl eq_refl eq_refl). cbn [rbind].
  rewrite (compute_aggregates_agree _ _ Hagree).
  destruct (compute_aggregates env2') as [a|e]; [|now split]. cbn [rbind].
  destruct (fst d) as [name|]; [|now split].
  rewrite (take_snapshot_agree _ _ a Hagree).
  destruct (take_snapshot env2' a); now split.
Qed.

(** A key missing from the dump, for a variable that no earlier dump
    has assigned: the body raises, and has written at most the
    placeholder row. *)
Lemma pbar_device_unbound popen sp env count d path key var :
  sp !! count = Some path ->
  In (key, var) counter_variables ->
  ~ In key (popen (device_data_command path)) ->
  env !! var = None ->
  exists cs e,
    pbar_device popen sp env count d = (cs, Raise e)
    /\ (cs = []
        \/ exists name, cs = [addstr (4 + count) 10 (idle_text name)]).
Proof.
  assert (Hraised : forall cs e, cs = []
            \/ (exists name, cs = [addstr (4 + count) 10 (idle_text name)]) ->
          exists cs' e', (cs, Raise (A := locals) e) = (cs', Raise e')
            /\ (cs' = []
                \/ exists name,
                    cs' = [addstr (4 + count) 10 (idle_text name)])).
  { intros cs e H. now exists cs, e. }
  intros Hsp Hkv Hmiss Hnone. unfold pbar_device. rewrite Hsp.
  destruct (parse_dump _ env) as [env'|e] eqn:Hp; [|apply Hraised; now left].
  cbn [rbind].
  assert (Hvar : env' !! var = None).
  { rewrite (parse_dump_lookup _ _ _ var Hp).
    now rewrite (assigned_missing _ _ _ Hkv Hmiss). }
  destruct (compute_aggregates env') as [a|e] eqn:Ha;
    [|apply Hraised; now left].
  cbn [rbind].
  destruct (fst d) as [name|]; [|apply Hraised; now left].
  destruct (take_snapshot env' a) as [s|e] eqn:Hs.
  - destruct (snapshot_reads_all env' a s var Ha Hs) as [v Hv].
    + apply in_map_iff. now exists (key, var).
    + congruence.
  - apply Hraised. destruct (latency_value a =? 0)%Z; [right | left]; eauto.
Qed.

(** The same key, for a variable that an earlier dump has assigned: the
    variable keeps that value. *)
Lemma pbar_device_stale popen sp env count d path key var v cs env' :
  sp !! count = Some path ->
  In (key, var) counter_variables ->
  ~ In key (popen (device_data_command path)) ->
  env !! var = Some v ->
  pbar_device popen sp env count d = (cs, Ok env') ->
  env' !! var = Some v.
Proof.
  intros Hsp Hkv Hmiss Hv H.
  apply pbar_device_Ok in H as (path' & _ & _ & Hsp' & _ & Hp & _).
  rewrite Hsp in Hsp'. injection Hsp' as <-.
  rewrite (parse_dump_lookup _ _ _ var Hp).
  now rewrite (assigned_missing _ _ _ Hkv Hmiss).
Qed.






End Rows.

(** ** The process *)

Section Process.

Implicit Types (h : host) (g : globals) (env : locals) (p : process).

Lemma pbar_raise h fuel rc g env p cs e :
  pbar_tick (cat_device_data h (S rc)) g env = (cs, Raise e) ->
  pbar h (S fuel) rc g env p = exit 0 (draw cs p).
Proof. intros H. cbn [pbar]. now rewrite H. Qed.

Lemma pbar_discovery h fuel rc g env p cs env' :
  pbar_tick (cat_device_data h (S rc)) g env = (cs, Ok env') ->
  (S rc mod 5)%nat = 0%nat ->
  pbar h (S fuel) rc g env p =
    let e := discover h (S rc / 5) in
    let p' :=
      discovered (control_stderr h (S rc / 5)) e
        (draw [clear] (tick_done (draw cs p))) in
    match outcome e with
    | Raise _ => exit 0 p'
    | Ok g' => pbar h fuel (S rc) g' env' p'
    end.
Proof. intros H Hm. cbn [pbar]. now rewrite H, Hm. Qed.

(** A discovery that correlates nothing prints the message and raises
    [SystemExit]. *)
Lemma discover_no_endpoints h n :
  no_endpoints h n ->
  discover h n = Enabled [no_endpoints_message] [] (Raise (SystemExit None)).
Proof.
  intros (output_telem & devs & Hs & Hb & Hc).
  unfold discover, EnableTelemetry. now rewrite Hs, Hb; cbn [rbind]; rewrite Hc.
Qed.

End Process.

(** ** The enable loop: claim *)

Section EnableClaims.

Lemma enable_failure_ends_enabling_witness :
  commands (EnableTelemetry status_two_devices [telemetry_70; telemetry_6b]
              fails_on_6b) = [enable_command telemetry_6b]
  /\ forall check_output',
      outcome (EnableTelemetry status_two_devices
                 [telemetry_70; telemetry_6b] check_output')
        = Ok two_endpoints.
Proof.
  assert (Hg : outcome (EnableTelemetry status_two_devices
                          [telemetry_70; telemetry_6b] fails_on_6b)
               = Ok two_endpoints) by (vm_compute; reflexivity).
  assert (Hp : fails_on_6b (enable_command telemetry_6b) = false)
    by (vm_compute; reflexivity).
  exact (enable_failure_ends_enabling status_two_devices
           [telemetry_70; telemetry_6b] fails_on_6b two_endpoints
           [] telemetry_6b [telemetry_70] Hg eq_refl (List.Forall_nil _) Hp).
Defined.

(** C4 (the claim as stated does not hold). The control write of bus 6b
    fails, the one of bus 70 would succeed: both endpoints are in the
    set, and no control write is attempted for bus 70. *)
Lemma later_endpoint_is_not_enabled :
  outcome (EnableTelemetry status_two_devices [telemetry_6b; telemetry_70]
             fails_on_6b) = Ok two_endpoints
  /\ fails_on_6b (enable_command telemetry_70) = true
  /\ ~ In (enable_command telemetry_70)
         (commands (EnableTelemetry status_two_devices
                      [telemetry_6b; telemetry_70] fails_on_6b)).
Proof.
  split; [vm_compute; reflexivity|]. split; [vm_compute; reflexivity|].
  vm_compute. intros [H|[]]. discriminate H.
Qed.

End EnableClaims.

(** ** The display: claims *)

Section DisplayClaims.

Implicit Types (popen : string -> list string) (sp : list string)
  (env : locals) (d : device) (count : nat).

(** C2 (as amended). For each of the five categories, with the sum [S]
    of the integers read from its sub-units: the value shown is [S]
    itself when [S <= 0] (0 for a sum of 0; a negative sum is not
    divided), and an integer nearest to [S / N] when [0 < S < 2 ^ 49],
    where the binary64 quotient is exact enough.  The latency shown is
    the token of the dump. *)
Theorem aggregation_rule env snap :
  snapshot_of env = Ok snap ->
  (forall vars n field, In (vars, n, field) categories ->
     exists zs, Forall2 (holds env) vars zs
       /\ (sum_Z zs <= 0 -> field snap = sum_Z zs)%Z
       /\ (0 < sum_Z zs < 2 ^ 49 -> nearest (sum_Z zs) n (field snap))%Z)
  /\ env !! "latency" = Some (latency snap).
Proof.
  unfold snapshot_of. intros H. apply rbind_Ok in H as (a & Ha & Hs).
  apply compute_aggregates_Ok in Ha as (Hd & Hp & Hc & Hat & Hu & _).
  apply take_snapshot_Ok in Hs as (_ & Hlat & Ed & Ep & Ec & Ea & Eu).
  split; [|exact Hlat].
  intros vars n field Hin. cbv [categories In] in Hin.
  destruct Hin as [H|[H|[H|[H|[H|[]]]]]]; injection H as <- <- <-.
  - rewrite Ed. apply utilization_spec; [lia | assumption].
  - rewrite Ep. apply utilization_spec; [lia | assumption].
  - rewrite Ec. apply utilization_spec; [lia | assumption].
  - rewrite Ea. apply utilization_spec; [lia | assumption].
  - rewrite Eu. apply utilization_spec; [lia | assumption].
Qed.

Lemma aggregation_rule_witness :
  snapshot_of (locals_after (dump "0" "42" "5"))
    = Ok (Snapshot "42" 2 0 0 0 0 "0")
  /\ locals_after (dump "0" "42" "5") !! "latency" = Some "0".
Proof.
  assert (H : snapshot_of (locals_after (dump "0" "42" "5"))
              = Ok (Snapshot "42" 2 0 0 0 0 "0")) by (vm_compute; reflexivity).
  split; [exact H|].
  exact (proj2 (aggregation_rule _ _ H)).
Defined.

(** C2 (the claim as stated does not hold). The three decompression
    units read -3, 0 and 0: the value shown is -3, the sum, and not -1,
    the sum divided by 3. *)
Lemma negative_sum_is_not_averaged :
  Forall2 (holds (locals_after (dump "0" "42" "-3"))) decompression_vars
    [(-3)%Z; 0%Z; 0%Z]
  /\ snapshot_of (locals_after (dump "0" "42" "-3"))
       = Ok (Snapshot "42" (-3) 0 0 0 0 "0")
  /\ ~ nearest (sum_Z [(-3)%Z; 0%Z; 0%Z]) 3 (-3).
Proof.
  split; [|split].
  - assert (H : forall var tok z,
               locals_after (dump "0" "42" "-3") !! var = Some tok ->
               py_int tok = Some z ->
               holds (locals_after (dump "0" "42" "-3")) var z)
      by (intros var tok z H1 H2; now exists tok).
    repeat constructor.
    + apply (H _ "-3"); vm_compute; reflexivity.
    + apply (H _ "0"); vm_compute; reflexivity.
    + apply (H _ "0"); vm_compute; reflexivity.
  - vm_compute. reflexivity.
  - unfold nearest. simpl. lia.
Qed.

(** Above the bound the binary64 quotient can be off: this sum is 1/3
    above an odd integer, and the value shown is the even integer that
    follows. *)
Lemma large_sum_is_misrounded :
  aggregate (3 * (2 ^ 51 + 1) + 1) 3 = Ok (2 ^ 51 + 2)%Z
  /\ ~ nearest (3 * (2 ^ 51 + 1) + 1) 3 (2 ^ 51 + 2).
Proof.
  split; [vm_compute; reflexivity|]. unfold nearest. lia.
Qed.

Lemma complete_dec (output : list string) :
  forallb (fun kv => existsb (String.eqb (fst kv)) output) counter_variables
    = true ->
  complete output.
Proof.
  intros H key var Hkv.
  rewrite forallb_forall in H. specialize (H _ Hkv). cbn [fst] in H.
  apply existsb_exists in H as (t & Ht & Heq).
  apply String.eqb_eq in Heq. now subst.
Qed.

(** C7 (as amended). When the dump of the endpoint has every key, the
    calls made on the window for its row, and the counter values that are
    left for the next endpoint or tick, are the same whatever the locals
    held before: they depend on this dump alone. *)
Theorem complete_dump_decides_row popen sp env1 env2 count d path :
  sp !! count = Some path ->
  complete (popen (device_data_command path)) ->
  fst (pbar_device popen sp env1 count d)
    = fst (pbar_device popen sp env2 count d)
  /\ same_outcome agree (snd (pbar_device popen sp env1 count d))
       (snd (pbar_device popen sp env2 count d)).
Proof.
  intros Hsp Hc. apply pbar_device_same.
  intros path' env1' env2' Hsp' H1 H2.
  rewrite Hsp in Hsp'. injection Hsp' as <-.
  exact (parse_dump_complete _ env1 env2 env1' env2' Hc H1 H2).
Qed.

Lemma complete_dump_decides_row_witness :
  fst (pbar_device (fun _ => dump "5" "11" "0") [telemetry_6b] ∅ 0
         (Some "qat_dev0", Some "6b"))
  = fst (pbar_device (fun _ => dump "5" "11" "0") [telemetry_6b]
           (locals_after (dump "7" "22" "3")) 0 (Some "qat_dev0", Some "6b")).
Proof.
  assert (Hc : complete (dump "5" "11" "0"))
    by (apply complete_dec; vm_compute; reflexivity).
  exact (proj1 (complete_dump_decides_row (fun _ => dump "5" "11" "0")
                  [telemetry_6b] ∅ (locals_after (dump "7" "22" "3")) 0
                  (Some "qat_dev0", Some "6b") telemetry_6b eq_refl Hc)).
Defined.

(** C7 (the claim as stated does not hold). The same dump, without the
    key [util_cpr0], after two dumps that differ in that counter: the
    row shows 11 in one case and 22 in the other. *)
Lemma stale_value_is_shown :
  fst (pbar_device (fun _ => dump_without_cpr "5" "0") [telemetry_6b]
         (locals_after (dump "5" "11" "0")) 0 (Some "qat_dev0", Some "6b"))
    = [addstr 4 10 (row_text "qat_dev0" (Snapshot "11" 0 0 0 0 0 "5"))]
  /\ fst (pbar_device (fun _ => dump_without_cpr "5" "0") [telemetry_6b]
            (locals_after (dump "5" "22" "0")) 0 (Some "qat_dev0", Some "6b"))
    = [addstr 4 10 (row_text "qat_dev0" (Snapshot "22" 0 0 0 0 0 "5"))]
  /\ pbar_device (fun _ => dump_without_cpr "5" "0") [telemetry_6b]
       (locals_after (dump "5" "11" "0")) 0 (Some "qat_dev0", Some "6b")
     <> pbar_device (fun _ => dump_without_cpr "5" "0") [telemetry_6b]
          (locals_after (dump "5" "22" "0")) 0 (Some "qat_dev0", Some "6b").
Proof.
  split; [vm_compute; reflexivity|]. split; [vm_compute; reflexivity|].
  intros H. apply (f_equal fst) in H. vm_compute in H. discriminate H.
Qed.

End DisplayClaims.

(** ** The render loop: claims *)

Section LoopClaims.

Implicit Types (popen : string -> list string) (sp ps : list string)
  (env : locals) (d : device) (count : nat) (h : host) (g : globals)
  (p : process).

(** C5 (as amended). An endpoint whose dump lacks an expected key:
    - when no earlier dump has assigned the variable of that key, the
      tick raises at this endpoint: the rows of the endpoints before it
      are written, for this one at most the placeholder row, and
      nothing for the endpoints after it;
    - a tick that raises ends the render loop and the process, with
      status 0: no later tick is rendered;
    - when an earlier dump (of this or another endpoint) has assigned
      the variable, it keeps that value and the row is computed from
      it. *)
Theorem missing_key_ends_the_loop :
  (forall popen sp ps pre d post env0 cs0 env count path key var,
      pbar_devices popen sp pre 0 env0 = (cs0, Ok (env, count)) ->
      sp !! count = Some path ->
      In (key, var) counter_variables ->
      ~ In key (popen (device_data_command path)) ->
      env !! var = None ->
      exists cs e,
        pbar_tick popen (Globals (pre ++ d :: post) ps sp) env0
          = (header_calls ++ cs0 ++ cs, Raise e)
        /\ (cs = []
            \/ exists name, cs = [addstr (4 + count) 10 (idle_text name)]))
  /\ (forall h fuel refresh_counter g env p cs e,
        pbar_tick (cat_device_data h (S refresh_counter)) g env
          = (cs, Raise e) ->
        pbar h (S fuel) refresh_counter g env p = exit 0 (draw cs p))
  /\ (forall popen sp env count d path key var v cs env',
        sp !! count = Some path ->
        In (key, var) counter_variables ->
        ~ In key (popen (device_data_command path)) ->
        env !! var = Some v ->
        pbar_device popen sp env count d = (cs, Ok env') ->
        env' !! var = Some v).
Proof.
  split; [|split].
  - intros popen sp ps pre d post env0 cs0 env count path key var
      Hpre Hsp Hkv Hmiss Hnone.
    destruct (pbar_device_unbound popen sp env count d path key var
                Hsp Hkv Hmiss Hnone) as (cs & e & Hd & Hcs).
    exists cs, e. split; [|exact Hcs].
    unfold pbar_tick. cbn [set_paths devices].
    rewrite pbar_devices_app, Hpre. cbn [pbar_devices]. now rewrite Hd.
  - intros h fuel rc g env p cs e. apply pbar_raise.
  - intros popen sp env count d path key var v cs env'.
    apply pbar_device_stale.
Qed.

Lemma missing_key_ends_the_loop_witness :
  exists cs e,
    pbar_tick cat_6b_incomplete two_endpoints ∅
      = (header_calls ++ [] ++ cs, Raise e)
    /\ (cs = [] \/ exists name, cs = [addstr (4 + 0) 10 (idle_text name)]).
Proof.
  assert (Hkv : In ("util_cpr0", "compression") counter_variables)
    by (cbv [counter_variables In]; right; left; reflexivity).
  assert (Hmiss : ~ In "util_cpr0"
                      (cat_6b_incomplete (device_data_command telemetry_6b)))
    by (vm_compute; intuition discriminate).
  assert (Hnone : (∅ : locals) !! "compression" = None)
    by apply lookup_empty.
  exact (proj1 missing_key_ends_the_loop cat_6b_incomplete
           [telemetry_6b; telemetry_70] [telemetry_6b; telemetry_70] []
           (Some "qat_dev0", Some "6b") [(Some "qat_dev1", Some "70")]
           ∅ [] ∅ 0%nat telemetry_6b "util_cpr0" "compression"
           eq_refl eq_refl Hkv Hmiss Hnone).
Defined.

(** C5 (the claim as stated does not hold). Two endpoints; the dump of
    the first lacks [util_cpr0], the dump of the second is complete.
    The first tick raises at the first endpoint: no row is written, for
    either endpoint, and the process ends without a completed tick. *)
Lemma one_missing_key_stops_every_row :
  pbar_tick cat_6b_incomplete two_endpoints ∅
    = (header_calls, Raise UnboundLocalError)
  /\ main host_6b_incomplete 3
     = Process [] []
         [enable_command telemetry_6b; enable_command telemetry_70]
         header_calls 0 (Some 0%Z)
  /\ ~ (exists text, In (addstr 5 10 text) (window (main host_6b_incomplete 3))).
Proof.
  split; [vm_compute; reflexivity|]. split; [vm_compute; reflexivity|].
  intros [text H]. vm_compute in H.
  destruct H as [H|[H|[H|[]]]]; discriminate H.
Qed.



(** The two lists need not be aligned: the status lists bus 70 first,
    the sorted paths have bus 6b first, and the row named [qat_dev0]
    (bus 70) shows the 11 per cent of bus 6b. *)
Lemma rows_can_be_misaligned :
  outcome (EnableTelemetry status_70_then_6b [telemetry_70; telemetry_6b]
             (fun _ => true))
    = Ok (Globals [(Some "qat_dev0", Some "70"); (Some "qat_dev1", Some "6b")]
            [telemetry_6b; telemetry_70] [telemetry_6b; telemetry_70])
  /\ In (addstr 4 10 (row_text "qat_dev0" (Snapshot "11" 0 0 0 0 0 "5")))
       (fst (pbar_tick cat_11_and_22
               (Globals
                  [(Some "qat_dev0", Some "70"); (Some "qat_dev1", Some "6b")]
                  [telemetry_6b; telemetry_70] [telemetry_6b; telemetry_70])
               ∅)).
Proof.
  split; [vm_compute; reflexivity|].
  vm_compute. do 3 right. left. reflexivity.
Qed.

(** C1 (as amended). A discovery cycle that correlates no endpoint
    prints the message on standard output and ends the process with
    status 0 and nothing on standard error.  At the start of the
    process no render tick is produced; at a periodic discovery the
    tick that went before is the last one, whatever fuel is left. *)
Theorem no_endpoints_ends_process :
  (forall h fuel,
      no_endpoints h 0 ->
      main h fuel = Process [no_endpoints_message] [] [] [] 0 (Some 0%Z))
  /\ (forall h fuel refresh_counter g env p cs env',
        pbar_tick (cat_device_data h (S refresh_counter)) g env
          = (cs, Ok env') ->
        (S refresh_counter mod 5)%nat = 0%nat ->
        no_endpoints h (S refresh_counter / 5) ->
        pbar h (S fuel) refresh_counter g env p
          = Process (stdout p ++ [no_endpoints_message]) (stderr p) (shell p)
              (window p ++ cs ++ [clear]) (S (ticks p)) (Some 0%Z)).
Proof.
  split.
  - intros h fuel H. unfold main. now rewrite (discover_no_endpoints _ _ H).
  - intros h fuel rc g env p cs env' Ht Hm H.
    rewrite (pbar_discovery _ _ _ _ _ _ _ _ Ht Hm).
    rewrite (discover_no_endpoints _ _ H).
    unfold exit, discovered, draw, tick_done, diagnostics.
    cbn [stdout stderr shell window ticks exit_status printed commands
         outcome flat_map map].
    now rewrite !app_nil_r, <- app_assoc.
Qed.

Lemma no_endpoints_ends_process_witness :
  main quiet_host 3 = Process [no_endpoints_message] [] [] [] 0 (Some 0%Z).
Proof.
  apply (proj1 no_endpoints_ends_process quiet_host 3).
  exists [], []. repeat split; reflexivity.
Defined.

(** C1 (the claim as stated does not hold). Both commands print
    nothing: no endpoint is correlated, the exit status is 0 and nothing
    is written on standard error. *)
Lemma quiet_host_exits_with_status_zero :
  no_endpoints quiet_host 0
  /\ ~ (exists status,
          exit_status (main quiet_host 3) = Some status /\ status <> 0%Z)
  /\ stderr (main quiet_host 3) = []
  /\ stdout (main quiet_host 3) = [no_endpoints_message].
Proof.
  split; [exists [], []; repeat split; reflexivity|].
  split; [|split; reflexivity].
  intros (status & Hs & Hne). vm_compute in Hs. congruence.
Qed.

End LoopClaims.

(** * Further properties of the discovery and of the display *)

Section Strings.

Implicit Types (s sub pre post : string) (c : ascii).

Lemma prefix_app sub s :
  String.prefix sub s = true <-> exists post, s = (sub ++ post)%string.
Proof.
  revert s. induction sub as [|a sub IH]; intros s.
  - split; [intros _; now exists s|]. intros _. now destruct s.
  - destruct s as [|b s]; cbn [String.prefix].
    + split; [discriminate|]. intros [post H]. discriminate H.
    + destruct (ascii_dec a b) as [->|Hab].
      * rewrite IH. split; intros [post H]; exists post.
        -- simpl. now rewrite H.
        -- simpl in H. now injection H.
      * split; [discriminate|]. intros [post H]. simpl in H.
        injection H as H _. congruence.
Qed.

(** [str_in] is the substring test. *)
Lemma str_in_app sub s :
  str_in sub s = true <-> exists pre post, s = (pre ++ sub ++ post)%string.
Proof.
  induction s as [|c s IH]; cbn [str_in].
  - rewrite orb_false_r, prefix_app. split.
    + intros [post H]. now exists "", post.
    + intros (pre & post & H). destruct pre as [|a pre]; [|discriminate H].
      now exists post.
  - rewrite orb_true_iff, prefix_app, IH. split.
    + intros [[post H]|(pre & post & H)].
      * now exists "", post.
      * exists (String c pre), post. simpl. now rewrite H.
    + intros (pre & post & H). destruct pre as [|a pre].
      * left. now exists post.
      * right. simpl in H. injection H as _ H. now exists pre, post.
Qed.

Lemma str_in_empty s : str_in "" s = true.
Proof. apply str_in_app. now exists "", s. Qed.

Lemma substring_length (n m : nat) s :
  (String.length (String.substring n m s) <= m)%nat.
Proof.
  revert n m. induction s as [|c s IH]; intros n m.
  - destruct n, m; simpl; lia.
  - destruct n as [|n].
    + destruct m as [|m]; simpl; [lia|]. specialize (IH 0%nat m). lia.
    + simpl. apply IH.
Qed.

Lemma substring_short (n m : nat) s :
  (String.length s <= n)%nat -> String.substring n m s = "".
Proof.
  revert n. induction s as [|c s IH]; intros n H.
  - now destruct n, m.
  - destruct n as [|n]; simpl in H; [lia|]. simpl. apply IH. lia.
Qed.

Lemma no_sep_cons (sep : ascii) c s :
  str_in (String sep "") (String c s) = false <->
  c <> sep /\ str_in (String sep "") s = false.
Proof.
  cbn [str_in String.prefix].
  destruct (ascii_dec sep c) as [->|Hne].
  - assert (H : String.prefix "" s = true) by now destruct s.
    rewrite H. simpl. split; [discriminate|]. intros [Hc _]. congruence.
  - simpl. split; [intros H; split; congruence|]. now intros [_ H].
Qed.

(** Without the separator, [split] gives the string itself. *)
Lemma str_split_none (sep : ascii) s :
  str_in (String sep "") s = false -> str_split sep s = [s].
Proof.
  induction s as [|c s IH]; [reflexivity|].
  intros H. apply no_sep_cons in H as [Hc Hs].
  cbn [str_split]. rewrite IH by assumption.
  apply Ascii.eqb_neq in Hc. now rewrite Hc.
Qed.

(** The first field ends at the first separator. *)
Lemma str_split_first (sep : ascii) pre post :
  str_in (String sep "") pre = false ->
  str_split sep (pre ++ String sep post)%string = pre :: str_split sep post.
Proof.
  induction pre as [|c pre IH]; intros H.
  - simpl. now rewrite Ascii.eqb_refl.
  - apply no_sep_cons in H as [Hc Hs].
    change (String c pre ++ String sep post)%string
      with (String c (pre ++ String sep post)%string).
    cbn [str_split]. rewrite IH by assumption.
    apply Ascii.eqb_neq in Hc. now rewrite Hc.
Qed.

End Strings.

Section SortKey.

(** X1. The sort key of a telemetry path, [x.split(':')[1]], is the text
    between its first and its second colon, or from its first colon to
    its end when it has one colon only; a path without a colon raises
    [IndexError]. *)
Theorem sort_key_is_second_field :
  (forall x, str_in ":" x = false -> sort_key x = Raise IndexError)
  /\ (forall a b,
        str_in ":" a = false -> str_in ":" b = false ->
        sort_key (a ++ ":" ++ b)%string = Ok b)
  /\ (forall a b c,
        str_in ":" a = false -> str_in ":" b = false ->
        sort_key (a ++ ":" ++ b ++ ":" ++ c)%string = Ok b).
Proof.
  split; [|split].
  - intros x H. unfold sort_key. now rewrite (str_split_none ":" x H).
  - intros a b Ha Hb. unfold sort_key.
    change (a ++ ":" ++ b)%string with (a ++ String ":" b)%string.
    now rewrite (str_split_first ":" a b Ha), (str_split_none ":" b Hb).
  - intros a b c Ha Hb. unfold sort_key.
    change (a ++ ":" ++ b ++ ":" ++ c)%string
      with (a ++ String ":" (b ++ String ":" c))%string.
    rewrite (str_split_first ":" a _ Ha), (str_split_first ":" b c Hb).
    reflexivity.
Qed.

Lemma sort_key_is_second_field_witness :
  sort_key "telemetry" = Raise IndexError
  /\ sort_key "/sys/devices/0000:6b" = Ok "6b"
  /\ sort_key telemetry_6b = Ok "6b/0000".
Proof.
  split; [|split].
  - exact (proj1 sort_key_is_second_field "telemetry" eq_refl).
  - exact (proj1 (proj2 sort_key_is_second_field)
             "/sys/devices/0000" "6b" eq_refl eq_refl).
  - exact (proj2 (proj2 sort_key_is_second_field)
             "/sys/devices/pci0000" "6b/0000" "6b:00.0/telemetry"
             eq_refl eq_refl).
Defined.

End SortKey.

Section Order.

Implicit Types (s t u : string).

Lemma ascii_compare_refl (a : ascii) : Ascii.compare a a = Eq.
Proof. unfold Ascii.compare. apply N.compare_refl. Qed.

Lemma string_compare_refl s : String.compare s s = Eq.
Proof.
  induction s as [|a s IH]; [reflexivity|].
  cbn [String.compare]. now rewrite ascii_compare_refl.
Qed.

Lemma string_ltb_irrefl s : String.ltb s s = false.
Proof. unfold String.ltb. now rewrite string_compare_refl. Qed.

Lemma string_compare_lt_trans s t u :
  String.compare s t = Lt -> String.compare t u = Lt ->
  String.compare s u = Lt.
Proof.
  revert t u. induction s as [|a s IH]; intros [|b t] [|c u];
    cbn [String.compare]; try discriminate; try reflexivity.
  unfold Ascii.compare.
  destruct (N.compare_spec (N_of_ascii a) (N_of_ascii b)) as [Hab|Hab|Hab];
    destruct (N.compare_spec (N_of_ascii b) (N_of_ascii c)) as [Hbc|Hbc|Hbc];
    try discriminate; intros H1 H2.
  - rewrite <- Hbc, Hab, N.compare_refl. now apply (IH t u).
  - rewrite Hab. now apply N.compare_lt_iff in Hbc as ->.
  - rewrite <- Hbc. now apply N.compare_lt_iff in Hab as ->.
  - assert (H : (N_of_ascii a < N_of_ascii c)%N) by lia.
    now apply N.compare_lt_iff in H as ->.
Qed.

(** "Not below" is transitive: the order of the keys is total. *)
Lemma string_ltb_false_trans s t u :
  String.ltb t s = false -> String.ltb u t = false -> String.ltb u s = false.
Proof.
  unfold String.ltb. intros H1 H2.
  destruct (String.compare u s) eqn:Hus; try reflexivity.
  destruct (String.compare t s) eqn:Hts; try discriminate.
  - apply String.compare_eq_iff in Hts. subst t. now rewrite Hus in H2.
  - destruct (String.compare u t) eqn:Hut; try discriminate.
    + apply String.compare_eq_iff in Hut. subst u. congruence.
    + rewrite String.compare_antisym in Hts, Hut.
      destruct (String.compare s t) eqn:Hst; try discriminate.
      destruct (String.compare t u) eqn:Htu; try discriminate.
      pose proof (string_compare_lt_trans _ _ _ Hst Htu) as H.
      rewrite String.compare_antisym, H in Hus. discriminate.
Qed.

End Order.

Section SortedPaths.

Implicit Types (kx ky : string * string) (l : list (string * string)).

Lemma insert_keyed_sorted kx l :
  StronglySorted keys_le l -> StronglySorted keys_le (insert_keyed kx l).
Proof.
  induction 1 as [|ky l Hl IH Hall]; cbn [insert_keyed].
  - repeat constructor.
  - destruct (String.ltb (fst ky) (fst kx)) eqn:Hlt.
    + constructor; [assumption|].
      rewrite (insert_keyed_Permutation kx l). constructor; [|assumption].
      unfold keys_le, String.ltb in *.
      rewrite String.compare_antisym.
      now destruct (String.compare (fst ky) (fst kx)).
    + constructor; [now constructor|]. constructor; [exact Hlt|].
      eapply List.Forall_impl; [|exact Hall]. intros kz Hz. unfold keys_le in *.
      now apply (string_ltb_false_trans _ (fst ky)).
Qed.

Lemma sort_keyed_sorted l : StronglySorted keys_le (sort_keyed l).
Proof.
  induction l as [|kx l IH]; [constructor|]. now apply insert_keyed_sorted.
Qed.

(** Elements of one key keep their order. *)
Lemma insert_keyed_filter (k : string) kx l :
  List.filter (fun kz => String.eqb k (fst kz)) (insert_keyed kx l)
  = List.filter (fun kz => String.eqb k (fst kz)) (kx :: l).
Proof.
  induction l as [|ky l IH]; [reflexivity|]. cbn [insert_keyed].
  destruct (String.ltb (fst ky) (fst kx)) eqn:Hlt; [|reflexivity].
  cbn [List.filter] in *. rewrite IH.
  destruct (String.eqb_spec k (fst kx)) as [->|Hkx]; [|reflexivity].
  destruct (String.eqb_spec (fst kx) (fst ky)) as [Heq|Hne]; [|reflexivity].
  rewrite Heq, string_ltb_irrefl in Hlt. discriminate.
Qed.

Lemma sort_keyed_filter (k : string) l :
  List.filter (fun kz => String.eqb k (fst kz)) (sort_keyed l)
  = List.filter (fun kz => String.eqb k (fst kz)) l.
Proof.
  induction l as [|kx l IH]; [reflexivity|].
  change (sort_keyed (kx :: l)) with (insert_keyed kx (sort_keyed l)).
  rewrite insert_keyed_filter. cbn [List.filter]. now rewrite IH.
Qed.

Lemma keyed_keys xs l :
  keyed xs = Ok l -> Forall (fun kx => sort_key (snd kx) = Ok (fst kx)) l.
Proof.
  revert l. induction xs as [|x xs IH]; cbn [keyed]; intros l.
  - intros [= <-]. constructor.
  - destruct (sort_key x) as [k|] eqn:Hk; cbn [rbind]; [|discriminate].
    destruct (keyed xs) as [ks|]; cbn [rbind]; [|discriminate].
    intros [= <-]. constructor; [exact Hk | now apply IH].
Qed.

Lemma has_key_filter (k : string) l :
  Forall (fun kx => sort_key (snd kx) = Ok (fst kx)) l ->
  List.filter (has_key k) (map snd l)
  = map snd (List.filter (fun kz => String.eqb k (fst kz)) l).
Proof.
  induction 1 as [|kx l Hk _ IH]; [reflexivity|].
  cbn [map List.filter]. unfold has_key at 1. rewrite Hk, IH.
  now destruct (String.eqb k (fst kx)).
Qed.

Lemma keys_le_map l :
  Forall (fun kx => sort_key (snd kx) = Ok (fst kx)) l ->
  StronglySorted keys_le l -> StronglySorted key_le (map snd l).
Proof.
  intros Hk Hs. induction Hs as [|kx l Hl IH Hall]; [constructor|].
  inversion Hk as [|? ? Hkx Hkl]; subst.
  cbn [map]. constructor; [now apply IH|].
  rewrite List.Forall_map. rewrite List.Forall_forall in *.
  intros ky Hin kx' ky' H1 H2.
  rewrite Hkx in H1. rewrite (Hkl ky Hin) in H2.
  injection H1 as <-. injection H2 as <-. now apply Hall.
Qed.

(** X2. [sorted] returns the paths it is given, none lost and none added,
    in the order of their keys; paths of the same key stay in the order
    in which [find] printed them. *)
Theorem sorted_paths original_array output_telem :
  sorted_by_key original_array = Ok output_telem ->
  Permutation output_telem original_array
  /\ StronglySorted key_le output_telem
  /\ forall k, List.filter (has_key k) output_telem
               = List.filter (has_key k) original_array.
Proof.
  intros H. split; [now apply sorted_by_key_Permutation|].
  unfold sorted_by_key in H. apply rbind_Ok in H as (l & Hl & [= <-]).
  pose proof (keyed_keys _ _ Hl) as Hk.
  assert (Hk' : Forall (fun kx => sort_key (snd kx) = Ok (fst kx))
                  (sort_keyed l)).
  { now rewrite sort_keyed_Permutation. }
  split.
  - apply keys_le_map; [assumption | apply sort_keyed_sorted].
  - intros k. rewrite (has_key_filter k _ Hk'), sort_keyed_filter.
    rewrite <- (has_key_filter k _ Hk). now rewrite (keyed_snd _ _ Hl).
Qed.

Lemma sorted_paths_witness :
  Permutation [telemetry_6b; telemetry_70] [telemetry_70; telemetry_6b]
  /\ StronglySorted key_le [telemetry_6b; telemetry_70]
  /\ forall k,
      List.filter (has_key k) [telemetry_6b; telemetry_70]
      = List.filter (has_key k) [telemetry_70; telemetry_6b].
Proof.
  assert (H : sorted_by_key [telemetry_70; telemetry_6b]
              = Ok [telemetry_6b; telemetry_70])
    by (vm_compute; reflexivity).
  exact (sorted_paths [telemetry_70; telemetry_6b]
           [telemetry_6b; telemetry_70] H).
Defined.

End SortedPaths.

Section InventoryInvariants.

Implicit Types (t : string) (toks : list string) (c : candidate)
  (devs : list device).

Lemma adf_token_not_last t v c devs :
  exists c' devs', adf_token t (Some v) c devs = Ok (c', devs').
Proof.
  unfold adf_token.
  repeat match goal with
         | |- context [if ?b then _ else _] => destruct b
         end; eauto.
Qed.

Lemma adf_token_last_key t c devs :
  plain t = false -> adf_token t None c devs = Raise IndexError.
Proof.
  intros H. unfold plain in H.
  destruct (String.eqb_spec "type:" t) as [<-|_]; [reflexivity|].
  destruct (String.eqb_spec "bsf:" t) as [<-|_]; [reflexivity|].
  destruct (String.eqb_spec "state:" t) as [<-|_]; [reflexivity|].
  discriminate H.
Qed.

(** X3. The scan of the status listing reads the token after a key
    ([type:], [bsf:] or [state:]) without looking whether there is one:
    it raises [IndexError] when the last token of the listing is a key,
    and completes in every other case. *)
Theorem listing_cut_after_key toks c devs :
  (from_option plain true (last toks) = true ->
   exists r, adf_scan toks c devs = Ok r)
  /\ (from_option plain true (last toks) = false ->
      adf_scan toks c devs = Raise IndexError).
Proof.
  revert c devs. induction toks as [|t toks IH]; intros c devs.
  { split; [now exists devs | discriminate]. }
  destruct toks as [|v toks].
  - cbn [last from_option adf_scan head]. split; intros H.
    + rewrite (adf_token_plain t None c devs H). now eexists.
    + now rewrite (adf_token_last_key t c devs H).
  - rewrite last_cons_cons. cbn [adf_scan head].
    destruct (adf_token_not_last t v c devs) as (c' & devs' & ->).
    apply IH.
Qed.

Lemma listing_cut_after_key_witness :
  (exists r, build_devices status_two_devices = Ok r)
  /\ build_devices ["qat_dev0"; "-"; "type:"; "4xxx,"; "bsf:"]
     = Raise IndexError.
Proof.
  split.
  - exact (proj1 (listing_cut_after_key status_two_devices no_candidate [])
             eq_refl).
  - exact (proj2 (listing_cut_after_key
                    ["qat_dev0"; "-"; "type:"; "4xxx,"; "bsf:"]
                    no_candidate [])
             eq_refl).
Defined.

Lemma adf_token_from all done t rest c devs c' devs' :
  all = done ++ t :: rest ->
  candidate_from all c -> Forall (from_listing all) devs ->
  adf_token t (head rest) c devs = Ok (c', devs') ->
  candidate_from all c' /\ Forall (from_listing all) devs'
  /\ (length devs' + ups rest <= length devs + ups (t :: rest))%nat.
Proof.
  intros Hall Hc Hd. unfold adf_token.
  assert (Hnone : candidate_from all no_candidate)
    by (split; now left).
  assert (Hlen : (length devs + ups rest
                  <= length devs + ups (t :: rest))%nat)
    by (cbn [ups]; lia).
  destruct Hc as [Hn Hb].
  destruct (str_in "qat_dev" t) eqn:Hq.
  { intros [= <- <-]. split; [|now split]. split; [|exact Hb].
    right. exists t. split; [|now split].
    rewrite Hall. apply in_or_app. right. now left. }
  destruct (String.eqb_spec "type:" t) as [<-|_].
  { destruct (head rest) as [v|]; [|discriminate].
    destruct (String.eqb "4xxx," v); intros [= <- <-];
      (split; [now split | now split]). }
  destruct (String.eqb_spec "bsf:" t) as [<-|_].
  { destruct rest as [|v rest]; [discriminate|]. cbn [head].
    intros [= <- <-]. split; [|now split]. split; [exact Hn|].
    right. now exists done, v, rest. }
  destruct (String.eqb_spec "state:" t) as [<-|_];
    [|intros [= <- <-]; split; [now split | now split]].
  destruct rest as [|v rest]; [discriminate|]. cbn [head ups] in *.
  change (String.eqb "state:" "state:") with true in *. cbn [andb] in *.
  destruct (String.eqb "up" v);
    [destruct (telemetry_supported c)|]; intros [= <- <-].
  - split; [exact Hnone|]. split.
    + apply Forall_app. split; [assumption|].
      constructor; [now split | constructor].
    + rewrite length_app. simpl. lia.
  - split; [exact Hnone|]. split; [assumption | lia].
  - split; [exact Hnone|]. split; [assumption | lia].
Qed.

Lemma adf_scan_from all done toks c devs r :
  all = done ++ toks ->
  candidate_from all c -> Forall (from_listing all) devs ->
  adf_scan toks c devs = Ok r ->
  Forall (from_listing all) r
  /\ (length r <= length devs + ups toks)%nat.
Proof.
  revert done c devs. induction toks as [|t rest IH]; intros done c devs.
  - intros _ _ Hd [= <-]. split; [assumption | simpl; lia].
  - intros Hall Hc Hd. cbn [adf_scan].
    destruct (adf_token t (head rest) c devs) as [[c' devs']|] eqn:Ht;
      [|discriminate].
    intros Hr.
    destruct (adf_token_from all done t rest c devs c' devs' Hall Hc Hd Ht)
      as (Hc' & Hd' & Hlen).
    destruct (IH (done ++ [t]) c' devs') as [Hf Hl]; try assumption.
    { now rewrite <- app_assoc. }
    split; [assumption | lia].
Qed.

(** X4. Every record of the inventory is made of tokens of the listing: its
    name, if it has one, is a token with [qat_dev], and its bus
    identifier, if it has one, is the slice [5:7] of a token that follows
    [bsf:], so at most two characters.  There are no more records than
    [state:] tokens followed by [up]. *)
Theorem inventory_records toks devs :
  build_devices toks = Ok devs ->
  Forall (from_listing toks) devs
  /\ Forall (fun d => forall b, snd d = Some b ->
                                (String.length b <= 2)%nat) devs
  /\ (length devs <= ups toks)%nat.
Proof.
  intros H.
  destruct (adf_scan_from toks [] toks no_candidate [] devs) as [Hf Hl];
    try assumption; try reflexivity.
  { split; now left. }
  { constructor. }
  split; [assumption|]. split; [|simpl in Hl; lia].
  eapply List.Forall_impl; [|exact Hf].
  intros d [_ [Hb|(pre & t & post & _ & Hb)]] b Hd.
  - congruence.
  - rewrite Hb in Hd. injection Hd as <-. apply substring_length.
Qed.

Lemma inventory_records_witness :
  Forall (from_listing status_two_devices) (devices two_endpoints)
  /\ Forall (fun d => forall b, snd d = Some b ->
                                (String.length b <= 2)%nat)
       (devices two_endpoints)
  /\ (length (devices two_endpoints) <= ups status_two_devices)%nat.
Proof.
  assert (H : build_devices status_two_devices = Ok (devices two_endpoints))
    by (vm_compute; reflexivity).
  exact (inventory_records status_two_devices (devices two_endpoints) H).
Defined.

End InventoryInvariants.

Section DiscoveryOutcomes.

Implicit Types (p path : string) (ps sp : list string) (d : device)
  (devs : list device).

Lemma matches_pos path devs :
  matches path devs <> 0%nat <->
  exists nm b, In (nm, Some b) devs /\ str_in b path = true.
Proof.
  unfold matches. split.
  - intros H. destruct (List.filter (bus_in path) devs) as [|d l] eqn:Hf;
      [now simpl in H|].
    assert (Hin : In d (List.filter (bus_in path) devs))
      by (rewrite Hf; now left).
    apply filter_In in Hin as [Hin Hb]. destruct d as [nm [b|]];
      [|discriminate Hb].
    now exists nm, b.
  - intros (nm & b & Hin & Hb).
    assert (H : In (nm, Some b) (List.filter (bus_in path) devs))
      by (apply filter_In; now split).
    destruct (List.filter (bus_in path) devs); [destruct H | discriminate].
Qed.

Lemma correlate_In ps devs sp p :
  correlate ps devs = Ok sp ->
  In p sp <->
  In p ps /\ exists nm b, In (nm, Some b) devs /\ str_in b p = true.
Proof.
  rewrite correlate_spec. destruct ps as [|q ps].
  { intros [= <-]. simpl. tauto. }
  destruct (forallb has_bus devs); [|discriminate]. intros Heq.
  assert (sp = flat_map (fun x => replicate (matches x devs) x) (q :: ps))
    as -> by congruence.
  clear Heq. rewrite in_flat_map. split.
  - intros (x & Hx & Hp). apply list_elem_of_In, elem_of_replicate in Hp
      as [-> Hm].
    split; [assumption | now apply matches_pos].
  - intros [Hp Hm]. exists p. split; [assumption|].
    apply list_elem_of_In, elem_of_replicate. split; [reflexivity|].
    now apply matches_pos.
Qed.

(** X5. A path is an endpoint exactly when it is one of the telemetry paths
    and the bus identifier of some device of the inventory occurs in it,
    at any place of the path.  A device whose [bsf:] token has five
    characters or fewer has the empty bus identifier, which occurs in
    every path: every telemetry path is then an endpoint. *)
Theorem endpoints_are_matching_paths ps devs sp :
  correlate ps devs = Ok sp ->
  (forall p,
      In p sp <->
      In p ps
      /\ exists nm b pre post,
          In (nm, Some b) devs /\ p = (pre ++ b ++ post)%string)
  /\ (forall nm t,
        (String.length t <= 5)%nat ->
        In (nm, Some (String.substring 5 2 t)) devs ->
        forall p, In p ps -> In p sp).
Proof.
  intros H. split.
  - intros p. rewrite (correlate_In ps devs sp p H). split.
    + intros [Hp (nm & b & Hin & Hb)]. split; [assumption|].
      apply str_in_app in Hb as (pre & post & ->). now exists nm, b, pre, post.
    + intros [Hp (nm & b & pre & post & Hin & ->)]. split; [assumption|].
      exists nm, b. split; [assumption|]. apply str_in_app. now exists pre, post.
  - intros nm t Ht Hin p Hp. apply (correlate_In ps devs sp p H).
    split; [assumption|]. exists nm, (String.substring 5 2 t).
    split; [assumption|]. rewrite (substring_short 5 2 t Ht).
    apply str_in_empty.
Qed.

Lemma endpoints_are_matching_paths_witness :
  (forall p,
      In p [telemetry_6b] <->
      In p [telemetry_6b; telemetry_70]
      /\ exists nm b pre post,
          In (nm, Some b) [(Some "qat_dev0", Some "6b")]
          /\ p = (pre ++ b ++ post)%string)
  /\ (forall nm t,
        (String.length t <= 5)%nat ->
        In (nm, Some (String.substring 5 2 t))
           [(Some "qat_dev0", Some "6b")] ->
        forall p, In p [telemetry_6b; telemetry_70] -> In p [telemetry_6b]).
Proof.
  assert (H : correlate [telemetry_6b; telemetry_70]
                [(Some "qat_dev0", Some "6b")] = Ok [telemetry_6b])
    by (vm_compute; reflexivity).
  exact (endpoints_are_matching_paths [telemetry_6b; telemetry_70]
           [(Some "qat_dev0", Some "6b")] [telemetry_6b] H).
Defined.

Lemma adf_scan_raises toks c devs e :
  adf_scan toks c devs = Raise e -> e = IndexError.
Proof.
  revert c devs. induction toks as [|t toks IH]; intros c devs;
    cbn [adf_scan]; [discriminate|].
  destruct (adf_token t (head toks) c devs) as [[c' devs']|e'] eqn:Ht.
  - apply IH.
  - intros [= <-]. revert Ht. unfold adf_token.
    repeat match goal with
           | |- context [if ?b then _ else _] => destruct b
           | |- context [match ?o with Some _ => _ | None => _ end] =>
               destruct o
           end; congruence.
Qed.

Lemma sorted_by_key_raises xs e :
  sorted_by_key xs = Raise e -> e = IndexError.
Proof.
  unfold sorted_by_key. destruct (keyed xs) as [l|e'] eqn:Hk; [discriminate|].
  intros [= <-]. now apply keyed_raises in Hk.
Qed.

Lemma correlate_raises ps devs e :
  correlate ps devs = Raise e -> e = TypeError.
Proof.
  rewrite correlate_spec. destruct ps; [discriminate|].
  destruct (forallb has_bus devs); congruence.
Qed.

Lemma enable_loop_all check_output sp :
  Forall (fun q => check_output (enable_command q) = true) sp ->
  enable_loop check_output sp = map enable_command sp.
Proof.
  induction 1 as [|q sp Hq _ IH]; [reflexivity|].
  cbn [enable_loop map]. now rewrite Hq, IH.
Qed.

Lemma enable_loop_prefix check_output sp :
  sp <> [] ->
  exists k : nat,
    (0 < k <= length sp)%nat
    /\ enable_loop check_output sp = map enable_command (take k sp).
Proof.
  induction sp as [|p sp IH]; [congruence|]. intros _. cbn [enable_loop].
  destruct (check_output (enable_command p)).
  - destruct sp as [|q sp].
    + exists 1%nat. split; [simpl; lia | reflexivity].
    + destruct IH as (k & Hk & ->); [discriminate|].
      exists (S k). split; [simpl in *; lia | reflexivity].
  - exists 1%nat. split; [simpl; lia | reflexivity].
Qed.

(** X6. A discovery ends in one of four ways.  It returns with the sorted
    paths, the inventory and at least one endpoint, having printed
    nothing and having attempted the control writes of a first part of
    the endpoints that is not empty, of all of them when none fails.  Or
    it leaves with [SystemExit] after the one message, or with
    [IndexError] or with [TypeError] and no message; in these three
    cases no control write is attempted. *)
Theorem discovery_outcomes adf find check_output :
  match outcome (EnableTelemetry adf find check_output) with
  | Ok g =>
      printed (EnableTelemetry adf find check_output) = []
      /\ set_paths g <> []
      /\ sorted_by_key find = Ok (paths g)
      /\ build_devices adf = Ok (devices g)
      /\ correlate (paths g) (devices g) = Ok (set_paths g)
      /\ (exists k : nat,
            (0 < k <= length (set_paths g))%nat
            /\ commands (EnableTelemetry adf find check_output)
               = map enable_command (take k (set_paths g)))
      /\ (Forall (fun q => check_output (enable_command q) = true)
            (set_paths g) ->
          commands (EnableTelemetry adf find check_output)
          = map enable_command (set_paths g))
  | Raise e =>
      commands (EnableTelemetry adf find check_output) = []
      /\ (e = SystemExit None
          /\ printed (EnableTelemetry adf find check_output)
             = [no_endpoints_message]
          \/ (e = IndexError \/ e = TypeError)
             /\ printed (EnableTelemetry adf find check_output) = [])
  end.
Proof.
  unfold EnableTelemetry.
  destruct (sorted_by_key find) as [telem|e] eqn:Hs; cbn [rbind].
  2:{ apply sorted_by_key_raises in Hs as ->. cbn. auto. }
  destruct (build_devices adf) as [devs|e] eqn:Hb; cbn [rbind].
  2:{ apply adf_scan_raises in Hb as ->. cbn. auto. }
  destruct (correlate telem devs) as [sp|e] eqn:Hc; cbn [rbind].
  2:{ apply correlate_raises in Hc as ->. cbn. auto. }
  cbn [set_paths]. destruct sp as [|p sp]; cbn.
  - auto.
  - repeat (split; [easy|]). split.
    + apply (enable_loop_prefix check_output (p :: sp)). discriminate.
    + apply (enable_loop_all check_output (p :: sp)).
Qed.

End DiscoveryOutcomes.

Section DumpParsing.

Implicit Types (output pre post : list string) (env : locals)
  (key var v t : string).

Lemma assigned_later pre output var v :
  assigned output var = Some v -> assigned (pre ++ output) var = Some v.
Proof.
  intros H. induction pre as [|t pre IH]; [exact H|].
  change ((t :: pre) ++ output) with (t :: (pre ++ output)).
  cbn [assigned]. now rewrite IH.
Qed.

Lemma assigned_cons t output var :
  assigned (t :: output) var =
    match assigned output var with
    | Some v => Some v
    | None =>
        match variable_of t counter_variables, output with
        | Some var', v :: _ => if String.eqb var' var then Some v else None
        | _, _ => None
        end
    end.
Proof. reflexivity. Qed.

(** X7. The parsing loop leaves in the variable of a counter the token that
    follows the last occurrence of its key in the dump: what earlier
    occurrences assigned is overwritten, whatever the variable held
    before the dump. *)
Theorem counter_takes_last_value pre key v post var env env' :
  In (key, var) counter_variables ->
  ~ In key (v :: post) ->
  parse_dump (pre ++ key :: v :: post) env = Ok env' ->
  env' !! var = Some v.
Proof.
  intros Hkv Hlast Hp. rewrite (parse_dump_lookup _ _ _ var Hp).
  rewrite (assigned_later pre (key :: v :: post) var v); [reflexivity|].
  rewrite assigned_cons.
  rewrite (assigned_missing (v :: post) key var Hkv Hlast).
  rewrite (variable_of_chain key var Hkv). now rewrite String.eqb_refl.
Qed.

Lemma counter_takes_last_value_witness :
  locals_after ["util_cpr0"; "7"; "lat_acc_avg"; "5"; "util_cpr0"; "11"]
    !! "compression" = Some "11".
Proof.
  assert (Hk : In ("util_cpr0", "compression") counter_variables)
    by (right; left; reflexivity).
  assert (Hl : ~ In "util_cpr0" ["11"])
    by (intros [E|[]]; discriminate E).
  assert (Hok : match parse_dump
                        ["util_cpr0"; "7"; "lat_acc_avg"; "5";
                         "util_cpr0"; "11"] ∅ with
                | Ok _ => true
                | Raise _ => false
                end = true)
    by (vm_compute; reflexivity).
  assert (Hp : parse_dump
                 (["util_cpr0"; "7"; "lat_acc_avg"; "5"]
                    ++ "util_cpr0" :: "11" :: []) ∅
               = Ok (locals_after
                       ["util_cpr0"; "7"; "lat_acc_avg"; "5";
                        "util_cpr0"; "11"])).
  { unfold locals_after. cbn [app].
    destruct (parse_dump _ ∅); [reflexivity | discriminate Hok]. }
  exact (counter_takes_last_value
           ["util_cpr0"; "7"; "lat_acc_avg"; "5"] "util_cpr0" "11" []
           "compression" ∅ _ Hk Hl Hp).
Defined.

(** X8. The parsing loop raises [IndexError] when the last token of the
    dump is one of the 21 keys, and completes in every other case: no
    other token stops it. *)
Theorem dump_cut_after_key output env :
  (from_option is_key false (last output) = true ->
   parse_dump output env = Raise IndexError)
  /\ (from_option is_key false (last output) = false ->
      exists env', parse_dump output env = Ok env').
Proof.
  revert env. induction output as [|t output IH]; intros env.
  { split; [discriminate | now exists env]. }
  destruct output as [|v output].
  - cbn [last from_option parse_dump]. unfold is_key.
    destruct (variable_of t counter_variables);
      split; try discriminate; try reflexivity. now exists env.
  - rewrite last_cons_cons.
    change (parse_dump (t :: v :: output) env)
      with (match variable_of t counter_variables with
            | None => parse_dump (v :: output) env
            | Some var => parse_dump (v :: output) (<[var := v]> env)
            end).
    destruct (variable_of t counter_variables); apply IH.
Qed.

Lemma dump_cut_after_key_witness :
  parse_dump ["lat_acc_avg"; "5"; "util_cpr0"] ∅ = Raise IndexError
  /\ exists env', parse_dump (dump "5" "11" "0") ∅ = Ok env'.
Proof.
  split.
  - exact (proj1 (dump_cut_after_key ["lat_acc_avg"; "5"; "util_cpr0"] ∅)
             ltac:(vm_compute; reflexivity)).
  - exact (proj2 (dump_cut_after_key (dump "5" "11" "0") ∅)
             ltac:(vm_compute; reflexivity)).
Defined.

End DumpParsing.

Section AggregateBounds.

Implicit Types (env : locals) (vars : list string).

Local Open Scope Z_scope.

Lemma sum_Z_bounds (zs : list Z) lo hi :
  Forall (fun z => lo <= z <= hi) zs ->
  Z.of_nat (length zs) * lo <= sum_Z zs <= Z.of_nat (length zs) * hi.
Proof.
  induction 1 as [|z zs Hz _ IH]; [simpl; lia|].
  cbn [sum_Z foldr length] in *. fold (sum_Z zs). lia.
Qed.

Lemma category_length vars n (field : snapshot -> Z) :
  In (vars, n, field) categories -> Z.of_nat (length vars) = n /\ 0 < n < 16.
Proof.
  cbv [categories In].
  intros [H|[H|[H|[H|[H|[]]]]]]; injection H as <- <- <-; split; reflexivity || lia.
Qed.

(** X9. The aggregate of a category lies between the smallest and the
    largest value of its sub-units, when these are integers from 0 to
    below 2^40: neither the division nor the rounding takes the result
    out of the range of the values that were read. *)
Theorem utilization_within_bounds env vars n field zs lo hi :
  In (vars, n, field) categories ->
  Forall2 (holds env) vars zs ->
  Forall (fun z => lo <= z <= hi) zs ->
  0 <= lo -> hi < 2 ^ 40 ->
  exists r, utilization env vars n = Ok r /\ lo <= r <= hi.
Proof.
  intros Hcat Hzs Hb Hlo Hhi.
  destruct (category_length _ _ _ Hcat) as [Hlen Hn].
  pose proof (sum_Z_bounds zs lo hi Hb) as Hs.
  rewrite <- (Forall2_length _ _ _ Hzs), Hlen in Hs.
  assert (Hsum : sum_Z zs < 2 ^ 49) by nia.
  destruct (utilization_total env vars n zs Hn Hzs Hsum) as [r Hr].
  exists r. split; [exact Hr|].
  destruct (utilization_spec env vars n r Hn Hr) as (zs' & Hzs' & Hle & Hgt).
  assert (zs' = zs) as ->.
  { clear -Hzs Hzs'. revert zs' Hzs'.
    induction Hzs as [|var z vars zs Hz _ IH]; intros zs' H'.
    - now inversion H'.
    - inversion H' as [|? z' ? zs'' Hz' Hzs'']; subst.
      destruct Hz as (tok & Ht & Hi), Hz' as (tok' & Ht' & Hi').
      f_equal; [congruence | now apply IH]. }
  destruct (Z_le_gt_dec (sum_Z zs) 0) as [H0|H0].
  - rewrite (Hle H0). nia.
  - specialize (Hgt ltac:(lia)). unfold nearest in Hgt. nia.
Qed.

Lemma utilization_within_bounds_witness :
  exists r,
    utilization (locals_after (dump "5" "11" "30")) decompression_vars 3
      = Ok r
    /\ (0 <= r <= 30)%Z.
Proof.
  assert (Hc : In (decompression_vars, 3%Z, decompress_utilization)
                 categories) by (left; reflexivity).
  assert (Hz : Forall2 (holds (locals_after (dump "5" "11" "30")))
                 decompression_vars [30%Z; 0%Z; 0%Z]).
  { repeat constructor.
    - exists "30". split; vm_compute; reflexivity.
    - exists "0". split; vm_compute; reflexivity.
    - exists "0". split; vm_compute; reflexivity. }
  assert (Hb : Forall (fun z => (0 <= z <= 30)%Z) [30%Z; 0%Z; 0%Z])
    by (repeat constructor; lia).
  exact (utilization_within_bounds (locals_after (dump "5" "11" "30"))
           decompression_vars 3 decompress_utilization [30%Z; 0%Z; 0%Z]
           0 30 Hc Hz Hb ltac:(lia) ltac:(lia)).
Defined.

Lemma round_half_even_multiple q z : 0 < q -> round_half_even (q * z) q = z.
Proof.
  intros Hq. unfold round_half_even.
  rewrite (Z.mul_comm q z), Z.div_mul, Z.mod_mul by lia.
  destruct (Z.ltb_spec (2 * 0) q); [reflexivity | lia].
Qed.

Lemma round_half_even_tie q t :
  0 < t -> round_half_even (q * (2 * t) + t) (2 * t)
           = if Z.even q then q else q + 1.
Proof.
  intros Ht. unfold round_half_even.
  assert (Hd : (q * (2 * t) + t) / (2 * t) = q)
    by (symmetry; apply (Z.div_unique _ _ q t); lia).
  assert (Hm : (q * (2 * t) + t) mod (2 * t) = t)
    by (symmetry; apply (Z.mod_unique _ _ q t); lia).
  rewrite Hd, Hm.
  destruct (Z.ltb_spec (2 * t) (2 * t)); [lia|]. reflexivity.
Qed.

(** X10. A mean that falls halfway between two integers is rounded to the
    even one of the two, as [round] of Python 3 does, not upwards: a sum
    [s] below [2 ^ 49] over [n] sub-units with [s / n = q + 1/2] is
    shown as [q] when [q] is even and as [q + 1] when [q] is odd. *)
Theorem tie_goes_to_even s n q :
  0 < n < 16 -> 0 < s < 2 ^ 49 -> 2 * s = n * (2 * q + 1) ->
  aggregate s n = Ok (if Z.even q then q else q + 1).
Proof.
  intros Hn Hs Htie. unfold aggregate.
  destruct (Z.ltb_spec 0 s); [|lia].
  destruct (true_divide_small s n Hs Hn) as (sc & Hsc & ->).
  cbn [rbind]. f_equal. unfold py_round. cbn [scale mant].
  destruct (Z.ltb_spec 0 sc); [|lia].
  assert (Hpow : 2 ^ sc = 2 * 2 ^ (sc - 1)).
  { rewrite <- Z.pow_succ_r by lia. f_equal. lia. }
  assert (Ht : 0 < 2 ^ (sc - 1)) by (apply Z.pow_pos_nonneg; lia).
  set (t := 2 ^ (sc - 1)) in *.
  replace (s * 2 ^ sc) with (n * (q * (2 * t) + t)) by (rewrite Hpow; nia).
  rewrite round_half_even_multiple by lia. rewrite Hpow.
  now apply round_half_even_tie.
Qed.

Lemma tie_goes_to_even_witness :
  aggregate 5 2 = Ok 2%Z /\ aggregate 7 2 = Ok 4%Z /\ aggregate 3 6 = Ok 0%Z.
Proof.
  split; [|split].
  - exact (tie_goes_to_even 5 2 2 ltac:(lia) ltac:(lia) eq_refl).
  - exact (tie_goes_to_even 7 2 3 ltac:(lia) ltac:(lia) eq_refl).
  - exact (tie_goes_to_even 3 6 0 ltac:(lia) ltac:(lia) eq_refl).
Defined.

(** X11. The values of a row are computed only when every counter variable
    is bound and the tokens of the nineteen sub-units of the five
    categories and of the latency are accepted by [int]; the token of
    the compression unit is the one that is shown as it was read. *)
Theorem row_needs_integers env s :
  snapshot_of env = Ok s ->
  env !! "compression" = Some (compression s)
  /\ forall var, In var counter_locals -> var <> "compression" ->
                 exists z, holds env var z.
Proof.
  unfold snapshot_of. intros H. apply rbind_Ok in H as (a & Ha & Hs).
  apply compute_aggregates_Ok in Ha as (Hd & Hp & Hc & Ht & Hu & Hl).
  apply take_snapshot_Ok in Hs as (Hcomp & _).
  split; [exact Hcomp|]. intros var Hv Hne.
  unfold utilization in *.
  apply rbind_Ok in Hd as (? & Hd & _). apply sum_of_Ok in Hd as (? & Hd & _).
  apply rbind_Ok in Hp as (? & Hp & _). apply sum_of_Ok in Hp as (? & Hp & _).
  apply rbind_Ok in Hc as (? & Hc & _). apply sum_of_Ok in Hc as (? & Hc & _).
  apply rbind_Ok in Ht as (? & Ht & _). apply sum_of_Ok in Ht as (? & Ht & _).
  apply rbind_Ok in Hu as (? & Hu & _). apply sum_of_Ok in Hu as (? & Hu & _).
  apply int_of_Ok in Hl.
  unfold decompression_vars, pke_vars, cph_vars, ath_vars, ucs_vars in *.
  repeat match goal with
         | H : Forall2 _ (_ :: _) _ |- _ =>
             let Hh := fresh "Hh" in
             inversion H as [|? ? ? ? Hh ?]; subst; clear H
         end.
  cbv [counter_locals counter_variables map snd In] in Hv.
  repeat (destruct Hv as [<-|Hv]; [first [congruence | eauto]|]).
  contradiction.
Qed.

Lemma row_needs_integers_witness :
  locals_after (dump "5" "n/a" "30") !! "compression" = Some "n/a"
  /\ forall var, In var counter_locals -> var <> "compression" ->
                 exists z, holds (locals_after (dump "5" "n/a" "30")) var z.
Proof.
  assert (H : snapshot_of (locals_after (dump "5" "n/a" "30"))
              = Ok (Snapshot "n/a" 10 0 0 0 0 "5"))
    by (vm_compute; reflexivity).
  exact (row_needs_integers (locals_after (dump "5" "n/a" "30"))
           (Snapshot "n/a" 10 0 0 0 0 "5") H).
Defined.

End AggregateBounds.

Section TickLayout.

Implicit Types (popen : string -> list string) (sp : list string)
  (env : locals) (d : device) (ds : list device) (count : nat)
  (cs : list call) (g : globals).

Lemma pbar_device_calls popen sp env count d :
  Forall (row_between (4 + count) (5 + count))
    (fst (pbar_device popen sp env count d)).
Proof.
  assert (Hrow : forall text,
             row_between (4 + count) (5 + count) (addstr (4 + count) 10 text)).
  { intros text. exists (4 + count)%nat, text. split; [reflexivity | lia]. }
  unfold pbar_device.
  destruct (sp !! count); [|constructor].
  destruct (rbind _ _) as [[env' a]|]; [|constructor].
  destruct (fst d); [|constructor].
  destruct (take_snapshot env' a), (latency_value a =? 0)%Z;
    cbn [fst app]; repeat constructor; apply Hrow.
Qed.

Lemma pbar_devices_calls popen sp ds count env :
  Forall (row_between (4 + count) (4 + count + length ds))
    (fst (pbar_devices popen sp ds count env))
  /\ forall env' n,
      snd (pbar_devices popen sp ds count env) = Ok (env', n) ->
      n = (count + length ds)%nat.
Proof.
  revert count env. induction ds as [|d ds IH]; intros count env.
  { cbn. split; [constructor|]. intros env' n [= _ <-]. lia. }
  cbn [pbar_devices length].
  pose proof (pbar_device_calls popen sp env count d) as Hd.
  destruct (pbar_device popen sp env count d) as [cs0 [env0|e]]; cbn [fst] in Hd.
  - destruct (IH (S count) env0) as [Hcs Hn].
    destruct (pbar_devices popen sp ds (S count) env0) as [cs1 r].
    cbn [fst snd] in *. split.
    + apply Forall_app. split.
      * eapply List.Forall_impl; [|exact Hd].
        intros c (y & text & -> & Hy). exists y, text. split; [reflexivity|lia].
      * eapply List.Forall_impl; [|exact Hcs].
        intros c (y & text & -> & Hy). exists y, text. split; [reflexivity|lia].
    + intros env' n Hr. rewrite (Hn env' n Hr). lia.
  - cbn [fst snd]. split; [|discriminate].
    eapply List.Forall_impl; [|exact Hd].
    intros c (y & text & -> & Hy). exists y, text. split; [reflexivity|lia].
Qed.

Lemma pbar_device_rows popen sp env count d env' :
  snd (pbar_device popen sp env count d) = Ok env' ->
  (1 <= length (fst (pbar_device popen sp env count d)) <= 2)%nat.
Proof.
  unfold pbar_device.
  destruct (sp !! count); [|discriminate].
  destruct (rbind _ _) as [[env0 a]|]; [|discriminate].
  destruct (fst d); [|discriminate].
  destruct (take_snapshot env0 a); [|discriminate].
  intros _. destruct (latency_value a =? 0)%Z; cbn; lia.
Qed.

Lemma pbar_devices_rows_count popen sp ds count env env' n :
  snd (pbar_devices popen sp ds count env) = Ok (env', n) ->
  (length ds <= length (fst (pbar_devices popen sp ds count env))
   <= 2 * length ds)%nat.
Proof.
  revert count env. induction ds as [|d ds IH]; intros count env.
  { cbn. lia. }
  cbn [pbar_devices length].
  pose proof (pbar_device_rows popen sp env count d) as Hd.
  destruct (pbar_device popen sp env count d) as [cs0 [env0|e]];
    cbn [fst snd] in *; [|discriminate].
  specialize (Hd env0 eq_refl). specialize (IH (S count) env0).
  destruct (pbar_devices popen sp ds (S count) env0) as [cs1 r].
  cbn [fst snd] in *. intros Hr. specialize (IH Hr).
  rewrite length_app. lia.
Qed.

(** X12. The idle row does not replace the row of a device.  When the body
    of the loop completes for a device, the full row is the last text
    written on the line of that device; the idle text is written before
    it, on the same line, exactly when [int] reads the latency token as
    0, and nothing else is written. *)
Theorem idle_row_is_overwritten popen sp env count d cs env' :
  pbar_device popen sp env count d = (cs, Ok env') ->
  exists name s z,
    fst d = Some name
    /\ snapshot_of env' = Ok s
    /\ py_int (latency s) = Some z
    /\ cs = (if (z =? 0)%Z
             then [addstr (4 + count) 10 (idle_text name)]
             else [])
            ++ [addstr (4 + count) 10 (row_text name s)].
Proof.
  unfold pbar_device.
  destruct (sp !! count) as [path|]; [|discriminate].
  destruct (parse_dump _ env) as [env1|]; [|discriminate]. cbn [rbind].
  destruct (compute_aggregates env1) as [a|] eqn:Ha; [|discriminate].
  cbn [rbind].
  destruct (fst d) as [name|]; [|discriminate].
  destruct (take_snapshot env1 a) as [s|] eqn:Hs; [|discriminate].
  intros [= <- <-]. exists name, s, (latency_value a).
  split; [reflexivity|].
  split; [unfold snapshot_of; now rewrite Ha|].
  split; [|reflexivity].
  apply compute_aggregates_Ok in Ha as (_ & _ & _ & _ & _ & Hl).
  apply int_of_Ok in Hl as (tok & Htok & Hint).
  apply take_snapshot_Ok in Hs as (_ & Hlat & _). congruence.
Qed.

Lemma idle_row_is_overwritten_witness :
  exists env',
    snd (pbar_device (fun _ => dump "00" "11" "30") [telemetry_6b] ∅ 0
           (Some "qat_dev0", Some "6b")) = Ok env'
    /\ exists name s z,
        Some "qat_dev0" = Some name
        /\ snapshot_of env' = Ok s
        /\ py_int (latency s) = Some z
        /\ fst (pbar_device (fun _ => dump "00" "11" "30") [telemetry_6b] ∅ 0
                  (Some "qat_dev0", Some "6b"))
           = (if (z =? 0)%Z
              then [addstr (4 + 0) 10 (idle_text name)]
              else [])
             ++ [addstr (4 + 0) 10 (row_text name s)].
Proof.
  assert (Hok : match snd (pbar_device (fun _ => dump "00" "11" "30")
                             [telemetry_6b] ∅ 0
                             (Some "qat_dev0", Some "6b")) with
                | Ok _ => true
                | Raise _ => false
                end = true)
    by (vm_compute; reflexivity).
  destruct (pbar_device (fun _ => dump "00" "11" "30") [telemetry_6b] ∅ 0
              (Some "qat_dev0", Some "6b")) as [cs [env'|e]] eqn:H;
    [|discriminate Hok].
  exists env'. split; [reflexivity|].
  exact (idle_row_is_overwritten (fun _ => dump "00" "11" "30")
           [telemetry_6b] ∅ 0 (Some "qat_dev0", Some "6b") cs env' H).
Defined.

(** X13. A tick that completes writes the three heading lines, then for
    each device one row or two (the idle row and the row over it), all
    at column 10 of the lines from 4 to 3 plus the number of devices,
    then the rule on the line below the last row; it then refreshes the
    window once and sleeps for two seconds. *)
Theorem tick_layout popen g env cs env' :
  pbar_tick popen g env = (cs, Ok env') ->
  exists rows,
    cs = header_calls ++ rows
           ++ [addstr (4 + length (devices g)) 10 rule_text; refresh; sleep 2]
    /\ Forall (row_between 4 (4 + length (devices g))) rows
    /\ (length (devices g) <= length rows <= 2 * length (devices g))%nat.
Proof.
  unfold pbar_tick.
  destruct (pbar_devices_calls popen (set_paths g) (devices g) 0 env)
    as [Hcs Hn].
  pose proof (pbar_devices_rows_count popen (set_paths g) (devices g) 0 env)
    as Hlen.
  destruct (pbar_devices popen (set_paths g) (devices g) 0 env)
    as [rows [[env0 n]|e]]; [|discriminate].
  cbn [fst snd] in *. intros [= <- <-]. exists rows.
  rewrite (Hn env0 n eq_refl). split; [reflexivity|].
  split; [exact Hcs | exact (Hlen env0 n eq_refl)].
Qed.

Lemma tick_layout_witness :
  exists rows,
    fst (pbar_tick cat_11_and_22 two_endpoints ∅)
    = header_calls ++ rows
        ++ [addstr (4 + length (devices two_endpoints)) 10 rule_text;
            refresh; sleep 2]
    /\ Forall (row_between 4 (4 + length (devices two_endpoints))) rows
    /\ (length (devices two_endpoints) <= length rows
        <= 2 * length (devices two_endpoints))%nat.
Proof.
  assert (Hok : match snd (pbar_tick cat_11_and_22 two_endpoints ∅) with
                | Ok _ => true
                | Raise _ => false
                end = true)
    by (vm_compute; reflexivity).
  destruct (pbar_tick cat_11_and_22 two_endpoints ∅) as [cs [env'|e]] eqn:H;
    [|discriminate Hok].
  exact (tick_layout cat_11_and_22 two_endpoints ∅ cs env' H).
Defined.

(** A tick ends normally only if every device has an endpoint at its
    position and a name. *)
Lemma pbar_tick_needs popen g env cs env' :
  pbar_tick popen g env = (cs, Ok env') ->
  (length (devices g) <= length (set_paths g))%nat
  /\ Forall (fun d => is_Some (fst d)) (devices g).
Proof.
  unfold pbar_tick.
  destruct (pbar_devices popen (set_paths g) (devices g) 0 env)
    as [rows [[env0 n]|e]] eqn:Hds; [|discriminate].
  intros _.
  assert (H : forall (i : nat) d, devices g !! i = Some d ->
            is_Some (set_paths g !! i) /\ is_Some (fst d)).
  { intros i d Hi.
    destruct (pbar_devices_rows _ _ _ _ _ _ _ _ Hds i d Hi)
      as (path & name & _ & _ & Hp & Hn & _).
    split; [now exists path | now exists name]. }
  split.
  - destruct (Nat.le_gt_cases (length (devices g)) (length (set_paths g)))
      as [Hle|Hgt]; [exact Hle|].
    destruct (devices g !! length (set_paths g)) as [d|] eqn:Hd.
    + destruct (H _ d Hd) as [[path Hp] _].
      apply lookup_lt_Some in Hp. lia.
    + apply lookup_ge_None in Hd. lia.
  - apply Forall_lookup. intros i d Hi. now apply (H i d).
Qed.

End TickLayout.

Section LoopInvariant.

Implicit Types (h : host) (g : globals) (env : locals) (p : process)
  (cs : list call) (f : call -> bool).

Lemma times_app f cs1 cs2 : times f (cs1 ++ cs2) = (times f cs1 + times f cs2)%nat.
Proof. unfold times. now rewrite List.filter_app, length_app. Qed.

Lemma times_rows f (first bound : nat) cs :
  (forall y x text, f (addstr y x text) = false) ->
  Forall (row_between first bound) cs -> times f cs = 0%nat.
Proof.
  intros Hf. induction 1 as [|c cs (y & text & -> & _) _ IH]; [reflexivity|].
  unfold times in *. cbn [List.filter]. now rewrite Hf.
Qed.

(** A tick refreshes and sleeps once, at its end; it never clears. *)
Lemma pbar_tick_times popen g env :
  let cs := fst (pbar_tick popen g env) in
  let done := match snd (pbar_tick popen g env) with
              | Ok _ => 1%nat
              | Raise _ => 0%nat
              end in
  times is_refresh cs = done /\ times is_sleep_2 cs = done
  /\ times is_clear cs = 0%nat.
Proof.
  unfold pbar_tick.
  destruct (pbar_devices_calls popen (set_paths g) (devices g) 0 env)
    as [Hcs _].
  destruct (pbar_devices popen (set_paths g) (devices g) 0 env)
    as [rows [[env0 n]|e]]; cbn [fst snd] in *;
    rewrite !times_app,
      !(times_rows _ _ _ rows (fun _ _ _ => eq_refl) Hcs); now cbn.
Qed.

Lemma every_fifth (rc : nat) :
  ((S rc mod 5 = 0 -> S rc / 5 = rc / 5 + 1)
   /\ (S rc mod 5 <> 0 -> S rc / 5 = rc / 5))%nat.
Proof.
  pose proof (Nat.div_mod_eq (S rc) 5) as H1.
  pose proof (Nat.div_mod_eq rc 5) as H2.
  pose proof (Nat.mod_upper_bound (S rc) 5 ltac:(lia)) as H3.
  pose proof (Nat.mod_upper_bound rc 5 ltac:(lia)) as H4.
  lia.
Qed.

(** What a discovery prints: nothing, or the message as it leaves. *)
Lemma EnableTelemetry_printed adf find check_output :
  printed (EnableTelemetry adf find check_output) = []
  \/ printed (EnableTelemetry adf find check_output) = [no_endpoints_message]
     /\ outcome (EnableTelemetry adf find check_output)
        = Raise (SystemExit None).
Proof.
  unfold EnableTelemetry.
  destruct (rbind (sorted_by_key find) _) as [g|e]; [|now left].
  destruct (set_paths g); [now right | now left].
Qed.

Lemma EnableTelemetry_Ok_prints_nothing adf find check_output g :
  outcome (EnableTelemetry adf find check_output) = Ok g ->
  printed (EnableTelemetry adf find check_output) = [].
Proof.
  intros H. destruct (EnableTelemetry_printed adf find check_output)
    as [Hp|[_ Hr]]; [exact Hp | congruence].
Qed.

Lemma pbar_steps h fuel rc g env p :
  ticks p = rc -> exit_status p = None -> in_step p ->
  let p' := pbar h fuel rc g env p in
  in_step p'
  /\ (ticks p' <= rc + fuel)%nat
  /\ (exit_status p' = None /\ ticks p' = (rc + fuel)%nat
      \/ exit_status p' = Some 0%Z)
  /\ (stdout p' = stdout p
      \/ stdout p' = stdout p ++ [no_endpoints_message]
         /\ exit_status p' = Some 0%Z).
Proof.
  revert rc g env p. induction fuel as [|fuel IH]; intros rc g env p.
  { intros Ht He Hs. cbn [pbar]. repeat split; try apply Hs; try lia; auto.
    left. split; [assumption | lia]. }
  intros Ht He (Hr & Hsl & Hc). cbn [pbar].
  destruct (pbar_tick_times (cat_device_data h (S rc)) g env) as (Tr & Ts & Tc).
  destruct (pbar_tick (cat_device_data h (S rc)) g env) as [cs [env'|e]];
    cbn [fst snd] in Tr, Ts, Tc.
  2:{ unfold exit, draw, in_step.
      cbn [window ticks exit_status stdout].
      rewrite !times_app, Tr, Ts, Tc, Hr, Hsl, Hc.
      repeat split; try lia; auto. }
  destruct (every_fifth rc) as [H5 H5'].
  destruct (Nat.eqb_spec (S rc mod 5) 0) as [Hm|Hm];
    [specialize (H5 Hm); clear H5' | specialize (H5' Hm); clear H5].
  - set (e := discover h (S rc / 5)).
    set (p1 := discovered (control_stderr h (S rc / 5)) e
                 (draw [clear] (tick_done (draw cs p)))).
    assert (Hstep : in_step p1 /\ ticks p1 = S rc).
    { unfold p1, in_step, discovered, draw, tick_done.
      cbn [window ticks]. rewrite !times_app, Tr, Ts, Tc, Hr, Hsl, Hc, Ht.
      change (times is_refresh [clear]) with 0%nat.
      change (times is_sleep_2 [clear]) with 0%nat.
      change (times is_clear [clear]) with 1%nat.
      repeat split; lia. }
    destruct Hstep as [Hstep Hticks].
    destruct (outcome e) as [g'|exc] eqn:Ho.
    + destruct (IH (S rc) g' env' p1 Hticks He Hstep) as (I1 & I2 & I3 & I5).
      assert (Hout : stdout p1 = stdout p).
      { unfold p1, discovered, e, discover. cbn [stdout].
        rewrite (EnableTelemetry_Ok_prints_nothing _ _ _ g' Ho).
        apply app_nil_r. }
      rewrite Hout in I5.
      split; [exact I1|]. split; [lia|]. split; [|exact I5].
      destruct I3 as [[E T]|E]; [left; split; [exact E | lia] | now right].
    + split; [exact Hstep|]. unfold exit. cbn [ticks exit_status stdout].
      rewrite Hticks. split; [lia|]. split; [now right|].
      unfold p1, discovered, draw, tick_done. cbn [stdout].
      destruct (EnableTelemetry_printed (adf_ctl_status h (S rc / 5))
                  (find_telemetry h (S rc / 5)) (control_write h (S rc / 5)))
        as [Hp|[Hp _]]; fold (discover h (S rc / 5)) in Hp; fold e in Hp;
        rewrite Hp; [left; apply app_nil_r | now right].
  - assert (Hstep : in_step (tick_done (draw cs p))
                    /\ ticks (tick_done (draw cs p)) = S rc).
    { unfold in_step, draw, tick_done.
      cbn [window ticks]. rewrite !times_app, Tr, Ts, Tc, Hr, Hsl, Hc, Ht.
      repeat split; lia. }
    destruct Hstep as [Hstep Hticks].
    destruct (IH (S rc) g env' (tick_done (draw cs p)) Hticks He Hstep)
      as (I1 & I2 & I3 & I5).
    split; [exact I1|]. split; [lia|]. split; [|exact I5].
    destruct I3 as [[E T]|E]; [left; split; [exact E | lia] | now right].
Qed.

Lemma from_shell_app h (commands more : list string) r :
  from_shell h commands r -> from_shell h (commands ++ more) r.
Proof.
  intros (n & command & line & Hc & Hl & ->). exists n, command, line.
  split; [apply in_or_app; now left|]. now split.
Qed.

(** What a discovery adds to the standard error. *)
Lemma discovered_stderr h (n : nat) (e : enabled) p :
  Forall (from_shell h (shell p)) (stderr p) ->
  Forall (from_shell h (shell (discovered (control_stderr h n) e p)))
    (stderr (discovered (control_stderr h n) e p)).
Proof.
  intros Hp. unfold discovered, diagnostics. cbn [stderr shell].
  apply Forall_app. split.
  - eapply List.Forall_impl; [|exact Hp]. intros r. apply from_shell_app.
  - apply List.Forall_forall. intros r Hr.
    apply in_map_iff in Hr as (line & <- & Hl).
    apply in_flat_map in Hl as (command & Hc & Hl).
    exists n, command, line. split; [apply in_or_app; now right|]. now split.
Qed.

(** The loop writes no traceback: all that it adds to the standard error
    comes from the shells of the control writes. *)
Lemma pbar_stderr h fuel rc g env p :
  Forall (from_shell h (shell p)) (stderr p) ->
  Forall (from_shell h (shell (pbar h fuel rc g env p)))
    (stderr (pbar h fuel rc g env p)).
Proof.
  revert rc g env p. induction fuel as [|fuel IH]; intros rc g env p Hp;
    [exact Hp|].
  cbn [pbar].
  destruct (pbar_tick (cat_device_data h (S rc)) g env) as [cs [env'|e]];
    [|exact Hp].
  destruct (S rc mod 5 =? 0)%nat; [|now apply IH].
  pose proof (discovered_stderr h (S rc / 5) (discover h (S rc / 5))
                (draw [clear] (tick_done (draw cs p))) Hp) as Hd.
  destruct (outcome (discover h (S rc / 5))) as [g'|e];
    [now apply IH | exact Hd].
Qed.

End LoopInvariant.

Section ProcessOutcomes.

Implicit Types (h : host) (g : globals) (env : locals) (p : process).

Lemma start_in_step printed errors commands :
  in_step (Process printed errors commands [] 0 None).
Proof. repeat split. Qed.

(** The three ways a discovery ends. *)
Lemma discover_cases h n :
  (exists g, outcome (discover h n) = Ok g /\ printed (discover h n) = [])
  \/ (outcome (discover h n) = Raise (SystemExit None)
      /\ printed (discover h n) = [no_endpoints_message]
      /\ commands (discover h n) = [])
  \/ (exists e, (e = IndexError \/ e = TypeError)
                /\ outcome (discover h n) = Raise e
                /\ printed (discover h n) = []
                /\ commands (discover h n) = []).
Proof.
  unfold discover, EnableTelemetry.
  destruct (sorted_by_key _) as [telem|e'] eqn:Hs; cbn [rbind].
  2:{ apply sorted_by_key_raises in Hs as ->. right. right.
      exists IndexError. cbn. auto. }
  destruct (build_devices _) as [devs|e'] eqn:Hb; cbn [rbind].
  2:{ apply adf_scan_raises in Hb as ->. right. right.
      exists IndexError. cbn. auto. }
  destruct (correlate telem devs) as [sp|e'] eqn:Hc; cbn [rbind].
  2:{ apply correlate_raises in Hc as ->. right. right.
      exists TypeError. cbn. auto. }
  cbn [set_paths]. destruct sp; cbn; [right; left; auto|].
  left. eexists. split; reflexivity.
Qed.

(** X14. The display refreshes the window once and sleeps for two seconds
    once for every completed tick, and clears the window once for every
    five completed ticks; a process that has not ended has completed
    every tick it was given. *)
Theorem render_cadence h fuel :
  (ticks (main h fuel) <= fuel)%nat
  /\ times is_refresh (window (main h fuel)) = ticks (main h fuel)
  /\ times is_sleep_2 (window (main h fuel)) = ticks (main h fuel)
  /\ times is_clear (window (main h fuel)) = (ticks (main h fuel) / 5)%nat
  /\ (exit_status (main h fuel) = None -> ticks (main h fuel) = fuel).
Proof.
  unfold main. destruct (outcome (discover h 0)) as [g|e] eqn:Ho.
  - destruct (pbar_steps h fuel 0 g ∅
                (discovered (control_stderr h 0) (discover h 0)
                   (Process [] [] [] [] 0 None))
                eq_refl eq_refl (start_in_step _ _ _))
      as [(I1 & I2 & I3) (I4 & I5 & _)].
    repeat split; try assumption. intros Hn.
    destruct I5 as [[_ T]|E]; [exact T | congruence].
  - destruct e as [| | | | | |[status|]]; cbn; repeat split; try lia;
      discriminate.
Qed.

(** X15. The process ends with status 1 and a traceback, before anything is
    drawn, exactly when the first discovery raises an error other than
    [SystemExit]; it ends with status 0 after the one message when the
    first discovery finds no endpoint.  Otherwise it draws and writes no
    traceback: all that reaches the standard error is what the shells of
    the control writes that were run put there, since [check_output]
    does not capture it; and whatever ends the loop, an error of a tick
    or a later discovery without endpoints, the status is 0. *)
Theorem exit_status_of_main h fuel :
  match outcome (discover h 0) with
  | Raise (SystemExit _) =>
      main h fuel = Process [no_endpoints_message] [] [] [] 0 (Some 0%Z)
  | Raise e =>
      main h fuel = Process [] [Traceback e] [] [] 0 (Some 1%Z)
  | Ok _ =>
      Forall (from_shell h (shell (main h fuel))) (stderr (main h fuel))
      /\ (exit_status (main h fuel) = None /\ ticks (main h fuel) = fuel
          \/ exit_status (main h fuel) = Some 0%Z)
      /\ (stdout (main h fuel) = []
          \/ stdout (main h fuel) = [no_endpoints_message]
             /\ exit_status (main h fuel) = Some 0%Z)
  end.
Proof.
  unfold main.
  destruct (discover_cases h 0)
    as [(g & Ho & Hp)|[(Ho & Hp & Hc)|(e & He & Ho & Hp & Hc)]];
    rewrite Ho.
  - destruct (pbar_steps h fuel 0 g ∅
                (discovered (control_stderr h 0) (discover h 0)
                   (Process [] [] [] [] 0 None))
                eq_refl eq_refl (start_in_step _ _ _))
      as (_ & _ & I3 & I5).
    pose proof (pbar_stderr h fuel 0 g ∅ _
                  (discovered_stderr h 0 (discover h 0)
                     (Process [] [] [] [] 0 None) (List.Forall_nil _)))
      as I4.
    set (p0 := discovered (control_stderr h 0) (discover h 0)
                 (Process [] [] [] [] 0 None)) in *.
    assert (Hout : stdout p0 = [])
      by (unfold p0, discovered; cbn [stdout]; now rewrite Hp).
    rewrite Hout in I5. cbn [app] in I5.
    split; [exact I4|]. split; [|exact I5].
    destruct I3 as [[E T]|E]; [left; split; [exact E | exact T] | now right].
  - unfold discovered. rewrite Hp, Hc. reflexivity.
  - unfold discovered. rewrite Hp, Hc. destruct He as [-> | ->]; reflexivity.
Qed.

(** A control write that fails: the first one is the only one attempted,
    what its shell says is on the standard error of the script, and the
    display starts all the same. *)
Lemma denied_write_reaches_stderr :
  shell (main host_write_denied 1) = [enable_command telemetry_6b]
  /\ stderr (main host_write_denied 1)
     = map Diagnostic (permission_denied (enable_command telemetry_6b))
  /\ ticks (main host_write_denied 1) = 1%nat.
Proof.
  split; [|split]; vm_compute; reflexivity.
Qed.

(** X16. When the discovery leaves fewer endpoints than devices, or a
    device without a name, the first tick does not complete: the error
    is swallowed by the handler of the loop, the window is never
    refreshed, and the process ends with status 0. *)
Theorem unmatched_device_ends_display h g fuel :
  outcome (discover h 0) = Ok g ->
  (length (set_paths g) < length (devices g))%nat
  \/ Exists (fun d => fst d = None) (devices g) ->
  ticks (main h (S fuel)) = 0%nat
  /\ exit_status (main h (S fuel)) = Some 0%Z
  /\ times is_refresh (window (main h (S fuel))) = 0%nat.
Proof.
  intros Ho Hbad. unfold main. rewrite Ho. cbn [pbar].
  destruct (pbar_tick_times (cat_device_data h 1) g ∅) as (Tr & _).
  destruct (pbar_tick (cat_device_data h 1) g ∅) as [cs [env'|e]] eqn:Ht;
    cbn [fst snd] in Tr.
  - exfalso. destruct (pbar_tick_needs _ _ _ _ _ Ht) as [Hlen Hnames].
    destruct Hbad as [Hlt|Hex]; [lia|].
    apply List.Exists_exists in Hex as (d & Hin & Hd).
    rewrite List.Forall_forall in Hnames. specialize (Hnames d Hin).
    rewrite Hd in Hnames. now destruct Hnames.
  - unfold exit, draw, discovered. cbn [ticks exit_status window].
    repeat split. exact Tr.
Qed.

Lemma unmatched_device_ends_display_witness :
  ticks (main host_one_path 3) = 0%nat
  /\ exit_status (main host_one_path 3) = Some 0%Z
  /\ times is_refresh (window (main host_one_path 3)) = 0%nat.
Proof.
  assert (H : outcome (discover host_one_path 0)
              = Ok (Globals (devices two_endpoints)
                      [telemetry_6b] [telemetry_6b]))
    by (vm_compute; reflexivity).
  exact (unmatched_device_ends_display host_one_path
           (Globals (devices two_endpoints) [telemetry_6b] [telemetry_6b])
           2 H (or_introl (le_n 2))).
Defined.

End ProcessOutcomes.

Section Listing.

Implicit Types (t v : string) (toks rest : list string) (c : candidate)
  (devs : list device) (l : status_line).

Lemma quiet_plain t : quiet t = true -> plain t = true.
Proof. unfold quiet. now intros [H _]%andb_true_iff. Qed.

Lemma name_after_quiet nm toks :
  Forall (fun t => quiet t = true) toks -> name_after nm toks = nm.
Proof.
  induction 1 as [|t toks Ht _ IH]; [reflexivity|].
  rewrite name_after_cons.
  apply andb_true_iff in Ht as [_ Hq]. apply negb_true_iff in Hq.
  now rewrite Hq.
Qed.

Lemma adf_scan_quiet toks rest c devs :
  Forall (fun t => quiet t = true) toks ->
  adf_scan (toks ++ rest) c devs = adf_scan rest c devs.
Proof.
  intros H. rewrite adf_scan_plain.
  - now rewrite (name_after_quiet _ _ H), candidate_eta.
  - eapply List.Forall_impl; [|exact H]. apply quiet_plain.
Qed.

Lemma adf_scan_quiet1 t rest c devs :
  quiet t = true -> adf_scan (t :: rest) c devs = adf_scan rest c devs.
Proof. intros H. apply (adf_scan_quiet [t]). now constructor. Qed.

Lemma adf_scan_name t rest c devs :
  str_in "qat_dev" t = true ->
  adf_scan (t :: rest) c devs =
    adf_scan rest (Candidate (Some t) (bus c) (telemetry_supported c)) devs.
Proof.
  intros H. apply adf_scan_cons. unfold adf_token. now rewrite H.
Qed.

Lemma adf_scan_type_any v rest c devs :
  quiet v = true ->
  adf_scan ("type:" :: v :: rest) c devs =
    adf_scan rest
      (Candidate (name c) (bus c)
         (String.eqb "4xxx," v || telemetry_supported c)) devs.
Proof.
  intros Hv.
  rewrite (adf_scan_cons _ _ _ _
             (Candidate (name c) (bus c)
                (String.eqb "4xxx," v || telemetry_supported c)) devs).
  - now apply adf_scan_quiet1.
  - unfold adf_token. cbn [head].
    change (str_in "qat_dev" "type:") with false.
    change (String.eqb "type:" "type:") with true. cbv iota.
    destruct (String.eqb "4xxx," v); [reflexivity|].
    cbn [orb]. now rewrite candidate_eta.
Qed.

Lemma adf_scan_bsf_quiet v rest c devs :
  quiet v = true ->
  adf_scan ("bsf:" :: v :: rest) c devs =
    adf_scan rest
      (Candidate (name c) (Some (String.substring 5 2 v))
         (telemetry_supported c)) devs.
Proof.
  intros Hv. rewrite adf_scan_bsf by now apply quiet_plain.
  now rewrite (name_after_quiet (name c) [v]) by now constructor.
Qed.

Lemma adf_scan_state v rest c devs :
  quiet v = true ->
  adf_scan ("state:" :: v :: rest) c devs =
    adf_scan rest no_candidate
      (if String.eqb "up" v && telemetry_supported c
       then devs ++ [(name c, bus c)] else devs).
Proof.
  intros Hv.
  rewrite (adf_scan_cons _ _ _ _ no_candidate
             (if String.eqb "up" v && telemetry_supported c
              then devs ++ [(name c, bus c)] else devs)).
  - now apply adf_scan_quiet1.
  - unfold adf_token. cbn [head].
    change (str_in "qat_dev" "state:") with false.
    change (String.eqb "type:" "state:") with false.
    change (String.eqb "bsf:" "state:") with false.
    change (String.eqb "state:" "state:") with true. cbv iota.
    destruct (String.eqb "up" v), (telemetry_supported c); reflexivity.
Qed.

(** One line of the listing, from a fresh candidate. *)
Lemma adf_scan_line l rest devs :
  well_formed l ->
  adf_scan (line_tokens l ++ rest) no_candidate devs =
    adf_scan rest no_candidate
      (devs ++ if line_up l then [line_record l] else []).
Proof.
  intros [Hname Hq]. unfold line_tokens.
  apply Forall_app in Hq as [Hbefore Hq].
  apply Forall_cons in Hq as [Htype Hq].
  apply Forall_app in Hq as [Hbetween Hq].
  apply Forall_cons in Hq as [Hbsf Hq].
  apply Forall_app in Hq as [Hafter Hq].
  apply Forall_cons in Hq as [Hstate _].
  rewrite <- app_comm_cons, (adf_scan_name _ _ _ _ Hname).
  rewrite <- !app_assoc, (adf_scan_quiet _ _ _ _ Hbefore).
  rewrite <- !app_comm_cons, (adf_scan_type_any _ _ _ _ Htype).
  rewrite <- !app_assoc, (adf_scan_quiet _ _ _ _ Hbetween).
  rewrite <- !app_comm_cons, (adf_scan_bsf_quiet _ _ _ _ Hbsf).
  rewrite <- !app_assoc, (adf_scan_quiet _ _ _ _ Hafter).
  rewrite <- !app_comm_cons. cbn [app].
  rewrite (adf_scan_state _ _ _ _ Hstate).
  cbn [name bus telemetry_supported no_candidate]. rewrite orb_false_r.
  unfold line_up, line_record. rewrite (andb_comm (String.eqb "up" _)).
  destruct (_ && _); [reflexivity | now rewrite app_nil_r].
Qed.

Lemma adf_scan_lines (lines : list status_line) devs :
  Forall well_formed lines ->
  adf_scan (flat_map line_tokens lines) no_candidate devs =
    Ok (devs ++ map line_record (List.filter line_up lines)).
Proof.
  intros H. revert devs. induction H as [|l lines Hl _ IH]; intros devs.
  - cbn. now rewrite app_nil_r.
  - cbn [flat_map List.filter]. rewrite (adf_scan_line l _ devs Hl), IH.
    rewrite <- app_assoc. now destruct (line_up l).
Qed.

(** X17. A listing of any number of devices, each of them a name, a [type:]
    field, a [bsf:] field and a closing [state:] field among tokens that
    are neither keys nor names, after a heading of such tokens, gives one
    record for each device of the supported type that is up, in the
    order of the listing, with the name and the bus identifier of that
    device; the other devices leave nothing behind. *)
Theorem inventory_of_listing (heading : list string)
    (lines : list status_line) :
  Forall (fun t => quiet t = true) heading ->
  Forall well_formed lines ->
  build_devices (heading ++ flat_map line_tokens lines)
    = Ok (map line_record (List.filter line_up lines)).
Proof.
  intros Hh Hl. unfold build_devices.
  rewrite (adf_scan_quiet _ _ _ _ Hh). now rewrite (adf_scan_lines _ _ Hl).
Qed.

Lemma inventory_of_listing_witness :
  build_devices
    (["Checking"; "status"; "of"; "all"; "devices."]
       ++ flat_map line_tokens [line_6b; line_70_down])
  = Ok [(Some "qat_dev0", Some "6b")].
Proof.
  assert (Hh : Forall (fun t => quiet t = true)
                 ["Checking"; "status"; "of"; "all"; "devices."])
    by (repeat constructor).
  assert (Hl : Forall well_formed [line_6b; line_70_down])
    by (repeat constructor).
  exact (inventory_of_listing
           ["Checking"; "status"; "of"; "all"; "devices."]
           [line_6b; line_70_down] Hh Hl).
Defined.

End Listing.

Section Alignment.

Implicit Types (p : string) (ps : list string) (d : device)
  (devs : list device).

Lemma filter_none {A : Type} (f : A -> bool) (xs : list A) :
  (forall x, In x xs -> f x = false) -> List.filter f xs = [].
Proof.
  induction xs as [|x xs IH]; intros H; [reflexivity|].
  cbn [List.filter]. rewrite (H x) by now left.
  apply IH. intros y Hy. apply H. now right.
Qed.

Lemma filter_single {A : Type} (f : A -> bool) (xs : list A) (j : nat) :
  (j < length xs)%nat ->
  (forall (i : nat) x, xs !! i = Some x -> f x = true <-> i = j) ->
  length (List.filter f xs) = 1%nat.
Proof.
  revert j. induction xs as [|x xs IH]; intros j Hj H; [simpl in Hj; lia|].
  cbn [List.filter]. destruct j as [|j].
  - rewrite (proj2 (H 0%nat x eq_refl) eq_refl).
    rewrite filter_none; [reflexivity|].
    intros y Hy. apply list_elem_of_In, list_elem_of_lookup in Hy as [i Hi].
    destruct (f y) eqn:Hf; [|reflexivity].
    now apply (H (S i) y Hi) in Hf.
  - destruct (f x) eqn:Hf; [now apply (H 0%nat x eq_refl) in Hf|].
    apply (IH j); [simpl in Hj; lia|].
    intros i y Hi. rewrite (H (S i) y Hi). lia.
Qed.

Lemma flat_map_replicate_1 (n : string -> nat) ps :
  (forall p, In p ps -> n p = 1%nat) ->
  flat_map (fun p => replicate (n p) p) ps = ps.
Proof.
  induction ps as [|p ps IH]; intros H; [reflexivity|].
  cbn [flat_map]. rewrite (H p) by now left.
  cbn. f_equal. apply IH. intros q Hq. apply H. now right.
Qed.

(** X18. When there are as many telemetry paths as devices and the path at
    each position holds the bus identifier of the device at that
    position and of no other device, the endpoints are the telemetry
    paths themselves, in their order: the endpoint at each position is
    the one of the device at that position. *)
Theorem aligned_endpoints ps devs :
  length ps = length devs ->
  (forall (i j : nat) p d,
      ps !! j = Some p -> devs !! i = Some d ->
      bus_in p d = true <-> i = j) ->
  correlate ps devs = Ok ps.
Proof.
  intros Hlen H. rewrite correlate_spec.
  destruct ps as [|p0 ps0] eqn:Hps; [reflexivity|]. rewrite <- Hps in *.
  assert (Hbus : forallb has_bus devs = true).
  { apply forallb_forall. intros d Hd.
    apply list_elem_of_In, list_elem_of_lookup in Hd as [i Hi].
    destruct (ps !! i) as [p|] eqn:Hp.
    - pose proof (proj2 (H i i p d Hp Hi) eq_refl) as Hb.
      unfold bus_in in Hb. unfold has_bus. now destruct (snd d).
    - apply lookup_ge_None in Hp. apply lookup_lt_Some in Hi. lia. }
  rewrite Hbus. f_equal. apply flat_map_replicate_1.
  intros p Hp. apply list_elem_of_In, list_elem_of_lookup in Hp as [j Hj].
  unfold matches. apply (filter_single _ _ j).
  - apply lookup_lt_Some in Hj. lia.
  - intros i d Hi. now apply H.
Qed.

Lemma aligned_endpoints_witness :
  correlate [telemetry_6b; telemetry_70] (devices two_endpoints)
  = Ok [telemetry_6b; telemetry_70].
Proof.
  assert (H : forall (i j : nat) p d,
             [telemetry_6b; telemetry_70] !! j = Some p ->
             devices two_endpoints !! i = Some d ->
             bus_in p d = true <-> i = j).
  { intros [|[|i]] [|[|j]] p d Hp Hd; try discriminate Hp;
      try discriminate Hd;
      injection Hp as <-; injection Hd as <-;
      (split; [vm_compute; intros E; first [reflexivity | discriminate E]
              | intros E; first [discriminate E | vm_compute; reflexivity]]). }
  exact (aligned_endpoints [telemetry_6b; telemetry_70]
           (devices two_endpoints) eq_refl H).
Defined.

End Alignment.

Section ShellSafety.

Implicit Types (h : host) (g : globals) (env : locals) (p : process).

Lemma enable_loop_In check_output sp c :
  In c (enable_loop check_output sp) ->
  exists path, In path sp /\ c = enable_command path.
Proof.
  induction sp as [|q sp IH]; cbn [enable_loop]; [intros []|].
  destruct (check_output (enable_command q)).
  - intros [<-|Hc].
    + exists q. split; [now left | reflexivity].
    + destruct (IH Hc) as (path & Hin & ->). exists path.
      split; [now right | reflexivity].
  - intros [<-|[]]. exists q. split; [now left | reflexivity].
Qed.

Lemma discover_commands h n c :
  In c (commands (discover h n)) ->
  exists path, In path (find_telemetry h n) /\ c = enable_command path.
Proof.
  unfold discover, EnableTelemetry.
  destruct (sorted_by_key (find_telemetry h n)) as [telem|e] eqn:Hs;
    cbn [rbind]; [|intros []].
  destruct (build_devices (adf_ctl_status h n)) as [devs|e] eqn:Hb;
    cbn [rbind]; [|intros []].
  destruct (correlate telem devs) as [sp|e] eqn:Hc; cbn [rbind]; [|intros []].
  cbn [set_paths]. destruct sp as [|q sp'] eqn:Hsp; [intros []|].
  rewrite <- Hsp. cbn [commands]. intros Hin.
  apply enable_loop_In in Hin as (path & Hp & ->).
  exists path. split; [|reflexivity].
  rewrite <- Hsp in Hc.
  apply (correlate_In telem devs sp path Hc) in Hp as [Hp _].
  apply sorted_by_key_Permutation in Hs.
  now apply (Permutation_in _ Hs).
Qed.

Lemma enables_found_mono h (b1 b2 : nat) c :
  (b1 <= b2)%nat -> enables_found h b1 c -> enables_found h b2 c.
Proof.
  intros Hle (n & path & Hn & Hin & ->). exists n, path.
  split; [lia|]. now split.
Qed.

Lemma pbar_shell h fuel rc g env p :
  Forall (enables_found h (rc + fuel)) (shell p) ->
  Forall (enables_found h (rc + fuel)) (shell (pbar h fuel rc g env p)).
Proof.
  revert rc g env p. induction fuel as [|fuel IH]; intros rc g env p Hp;
    [exact Hp|].
  cbn [pbar].
  destruct (pbar_tick (cat_device_data h (S rc)) g env) as [cs [env'|e]];
    [|exact Hp].
  replace (rc + S fuel)%nat with (S rc + fuel)%nat in * by lia.
  destruct (Nat.eqb_spec (S rc mod 5) 0) as [Hm|Hm].
  - assert (Hs : Forall (enables_found h (S rc + fuel))
                   (shell (discovered (control_stderr h (S rc / 5))
                             (discover h (S rc / 5))
                             (draw [clear] (tick_done (draw cs p)))))).
    { unfold discovered, draw, tick_done. cbn [shell].
      apply Forall_app. split; [exact Hp|].
      apply List.Forall_forall. intros c Hc.
      apply discover_commands in Hc as (path & Hin & ->).
      exists (S rc / 5)%nat, path. split; [|now split].
      pose proof (Nat.div_mod_eq (S rc) 5). lia. }
    destruct (outcome (discover h (S rc / 5))) as [g'|e].
    + now apply IH.
    + exact Hs.
  - now apply IH.
Qed.

(** X19. Whatever the host answers and however long the process runs,
    every command line that the script hands to [check_output] is the
    text [echo 1 > path/control] for a token [path] that [find] printed
    in a discovery cycle that has taken place.  This bounds the text of
    the commands only: the token is put into the command unquoted, and
    what the shell does with it is the host's. *)
Theorem control_commands_name_found_paths h fuel :
  Forall (enables_found h fuel) (shell (main h fuel)).
Proof.
  unfold main.
  assert (H0 : Forall (enables_found h (0 + fuel))
                 (shell (discovered (control_stderr h 0) (discover h 0)
                           (Process [] [] [] [] 0 None)))).
  { unfold discovered. cbn [shell app].
    apply List.Forall_forall. intros c Hc.
    apply discover_commands in Hc as (path & Hin & ->).
    exists 0%nat, path. split; [lia|]. now split. }
  destruct (outcome (discover h 0)) as [g|e].
  - exact (pbar_shell h fuel 0 g ∅ _ H0).
  - destruct e as [| | | | | |[status|]]; exact H0.
Qed.

End ShellSafety.
